(** * sanity-typed-schema-builder: node builders over zod schemas

    A shallow embedding of the schema builders of the repository
    (array/items, reference, objectNamed, text, and the document builder
    they point to) together with the fragment of the zod validation
    library and of lodash/fp they call.  Every builder yields three
    artifacts: a schema descriptor, a parser and a mock producer. *)

From Stdlib Require Import ZArith.
From stdpp Require Import base option list strings gmap.

Set Warnings "-register-all".

Local Open Scope string_scope.
Local Open Scope list_scope.

(** ** JavaScript values *)

(** Raw (wire) and parsed (application) values.  Numbers are restricted
    to the integers; [VDate s] is the [Date] object built by
    [new Date(s)] from the wire string [s]. *)
Inductive Value : Type :=
| VUndefined
| VNull
| VBool (b : bool)
| VNum (n : Z)
| VStr (s : string)
| VDate (iso : string)
| VArr (elems : list Value)
| VObj (props : list (string * Value)).

(** Objects are association lists in property order, because the order
    of a descriptor's properties and of a shape's fields is observable.
    A well-formed object binds each key once; [objGet] reads the first
    binding and [objSet] overwrites it in place (or appends a new
    property), which is what [o[k]] and [o[k] = v] do on such objects. *)
Section Objects.
Context {A : Type}.

Fixpoint objGet (k : string) (o : list (string * A)) : option A :=
  match o with
  | [] => None
  | (k', v) :: o' => if String.eqb k' k then Some v else objGet k o'
  end.

Fixpoint objSet (k : string) (v : A) (o : list (string * A))
  : list (string * A) :=
  match o with
  | [] => [(k, v)]
  | (k', v') :: o' =>
      if String.eqb k' k then (k, v) :: o' else (k', v') :: objSet k v o'
  end.

(** [{...a, ...b}] *)
Definition objSpread (a b : list (string * A)) : list (string * A) :=
  fold_left (fun acc kv => objSet (fst kv) (snd kv) acc) b a.

Definition objHas (k : string) (o : list (string * A)) : bool :=
  match objGet k o with Some _ => true | None => false end.
End Objects.

(** [o[k]] on a raw object: an absent property reads as [undefined]. *)
Definition prop (k : string) (o : list (string * Value)) : Value :=
  match objGet k o with Some v => v | None => VUndefined end.

(** ** Sanity validation rules and schema descriptors *)

Record RegExp : Type := { test : string -> bool }.

(** The external generator of synthetic leaf values, a pseudo-random
    source: its state is a position in the sequence of values it yields,
    and every call of a producer returns the value at that position and
    advances the generator. *)
Record Faker : Type := {
  position : nat;
  paragraphsAt : nat -> string
}.

(** [faker.lorem.paragraphs()]: the paragraphs and the generator after
    the call. *)
Definition lorem_paragraphs (faker : Faker) : string * Faker :=
  (paragraphsAt faker (position faker),
   {| position := S (position faker);
      paragraphsAt := paragraphsAt faker |}).

(** The external rule builder is a fluent object; a rule is modelled by
    the calls made on it, in call order. *)
Inductive RuleCall : Type :=
| RuleRequired
| RuleMin (n : Z)
| RuleMax (n : Z)
| RuleLength (n : Z)
| RuleRegex (re : RegExp)
| RuleCustom (label : string).

Definition Rule : Type := list RuleCall.

Definition rule_min (n : Z) (r : Rule) : Rule := r ++ [RuleMin n].
Definition rule_max (n : Z) (r : Rule) : Rule := r ++ [RuleMax n].
Definition rule_length (n : Z) (r : Rule) : Rule := r ++ [RuleLength n].
Definition rule_regex (re : RegExp) (r : Rule) : Rule := r ++ [RuleRegex re].

(** Schema descriptors and the definition objects spread into them:
    plain data, lists, records, the [validation] callback, and the
    regular expression and mock callback a text definition carries. *)
Inductive Descr : Type :=
| DVal (v : Value)
| DList (l : list Descr)
| DObj (props : list (string * Descr))
| DValidation (f : Rule -> Rule)
| DRegExp (re : RegExp)
| DMock (f : Faker -> string * Faker).

Definition DString (s : string) : Descr := DVal (VStr s).

(** ** The zod fragment

    The schemas of the external zod library that the builders construct:
    strings with length and pattern checks, booleans, string literals,
    [never], optional fields, objects (which strip unknown keys), arrays
    with length bounds, unions, and transforming effects. *)

Inductive StringCheck : Type :=
| CheckMin (n : Z)
| CheckMax (n : Z)
| CheckRegex (re : RegExp).

Inductive Zod : Type :=
| ZodString (checks : list StringCheck)
| ZodBoolean
| ZodLiteral (value : string)
| ZodNever
| ZodOptional (inner : Zod)
| ZodObject (shape : list (string * Zod))
| ZodArray (element : Zod) (minLength maxLength exactLength : option Z)
| ZodUnion (options : list Zod)
| ZodEffects (inner : Zod) (transform : Value -> Value).

Inductive PathSeg : Type :=
| Key (k : string)
| Index (i : nat).

Record ZodIssue : Type := { code : string; path : list PathSeg }.

(** A parse either yields a result or fails with a [ZodError] carrying
    the issues found; [zod.parse] throws that error. *)
Inductive Result (A : Type) : Type :=
| Ok (a : A)
| ZodError (issues : list ZodIssue).

Arguments Ok {A} a.
Arguments ZodError {A} issues.

Abbreviation ParseResult := (Result Value).

Definition isOk {A : Type} (r : Result A) : bool :=
  match r with Ok _ => true | ZodError _ => false end.

Definition issue (c : string) : ZodIssue := {| code := c; path := [] |}.

(** Issues of a child are reported under the child's key or index. *)
Definition under {A : Type} (seg : PathSeg) (r : Result A) : Result A :=
  match r with
  | Ok a => Ok a
  | ZodError e =>
      ZodError
        (map (fun i => {| code := code i; path := seg :: path i |}) e)
  end.

(** Two parses of one level are both carried out; their issues add up. *)
Definition both {A B C : Type} (f : A -> B -> C)
    (ra : Result A) (rb : Result B) : Result C :=
  match ra, rb with
  | Ok a, Ok b => Ok (f a b)
  | Ok _, ZodError e => ZodError e
  | ZodError e, Ok _ => ZodError e
  | ZodError e1, ZodError e2 => ZodError (e1 ++ e2)
  end.

Definition whenOk {A B : Type} (r : Result A) (f : A -> B) : Result B :=
  match r with
  | Ok a => Ok (f a)
  | ZodError e => ZodError e
  end.

Definition invalidType {A : Type} : Result A :=
  ZodError [issue "invalid_type"].

Definition strlen (s : string) : Z := Z.of_nat (String.length s).

Definition stringCheck (s : string) (c : StringCheck) : Result unit :=
  match c with
  | CheckMin n =>
      if (strlen s <? n)%Z then ZodError [issue "too_small"] else Ok tt
  | CheckMax n =>
      if (n <? strlen s)%Z then ZodError [issue "too_big"] else Ok tt
  | CheckRegex re =>
      if test re s then Ok tt else ZodError [issue "invalid_string"]
  end.

Definition stringChecks (s : string) (checks : list StringCheck)
  : Result unit :=
  fold_right (fun c r => both (fun _ _ => tt) (stringCheck s c) r)
             (Ok tt) checks.

(** The cardinality checks of an array schema. *)
Definition atLeast (bound : option Z) (len : Z) : Result unit :=
  match bound with
  | Some n => if (len <? n)%Z then ZodError [issue "too_small"] else Ok tt
  | None => Ok tt
  end.

Definition atMost (bound : option Z) (len : Z) : Result unit :=
  match bound with
  | Some n => if (n <? len)%Z then ZodError [issue "too_big"] else Ok tt
  | None => Ok tt
  end.

Definition exactly (bound : option Z) (len : Z) : Result unit :=
  match bound with
  | Some n =>
      if (len =? n)%Z then Ok tt
      else ZodError [issue (if (len <? n)%Z then "too_small" else "too_big")]
  | None => Ok tt
  end.

Definition checkLength (minLength maxLength exactLength : option Z)
    (len : Z) : Result unit :=
  both (fun _ _ => tt) (exactly exactLength len)
    (both (fun _ _ => tt) (atLeast minLength len) (atMost maxLength len)).

Section Loops.
Variable parseWith : Zod -> Value -> ParseResult.
Variable parseElement : Value -> ParseResult.

(** Elements of an array, parsed in order with the element schema. *)
Fixpoint parseElements (i : nat) (l : list Value) : Result (list Value) :=
  match l with
  | [] => Ok []
  | x :: l' =>
      both cons (under (Index i) (parseElement x))
                (parseElements (S i) l')
  end.

(** A parsed field is set in the output when its value is defined or
    its key is present in the input. *)
Definition setField (input : list (string * Value)) (k : string)
    (w : Value) (out : list (string * Value)) : list (string * Value) :=
  match w with
  | VUndefined => if objHas k input then (k, w) :: out else out
  | _ => (k, w) :: out
  end.

(** Fields of an object, parsed in shape order; keys of the input that
    the shape does not name are stripped. *)
Fixpoint parseShape (shape : list (string * Zod))
    (input : list (string * Value)) : Result (list (string * Value)) :=
  match shape with
  | [] => Ok []
  | (k, zk) :: shape' =>
      both (setField input k)
           (under (Key k) (parseWith zk (prop k input)))
           (parseShape shape' input)
  end.

(** Options of a union, tried in order; the first valid result wins. *)
Fixpoint parseOptions (options : list Zod) (v : Value)
  : option Value :=
  match options with
  | [] => None
  | o :: options' =>
      match parseWith o v with
      | Ok w => Some w
      | ZodError _ => parseOptions options' v
      end
  end.
End Loops.

(** [zod.parse(v)] for a schema [z] of the fragment. *)
Fixpoint zparse (z : Zod) (v : Value) {struct z} : ParseResult :=
  match z with
  | ZodString checks =>
      match v with
      | VStr s => whenOk (stringChecks s checks) (fun _ => v)
      | _ => invalidType
      end
  | ZodBoolean =>
      match v with
      | VBool _ => Ok v
      | _ => invalidType
      end
  | ZodLiteral value =>
      match v with
      | VStr s =>
          if String.eqb s value then Ok v
          else ZodError [issue "invalid_literal"]
      | _ => ZodError [issue "invalid_literal"]
      end
  | ZodNever => invalidType
  | ZodOptional inner =>
      match v with
      | VUndefined => Ok VUndefined
      | _ => zparse inner v
      end
  | ZodObject shape =>
      match v with
      | VObj input =>
          whenOk (parseShape zparse shape input) VObj
      | _ => invalidType
      end
  | ZodArray element minLength maxLength exactLength =>
      match v with
      | VArr l =>
          both (fun _ out => VArr out)
               (checkLength minLength maxLength exactLength
                  (Z.of_nat (length l)))
               (parseElements (zparse element) 0 l)
      | _ => invalidType
      end
  | ZodUnion options =>
      match parseOptions zparse options v with
      | Some w => Ok w
      | None => ZodError [issue "invalid_union"]
      end
  | ZodEffects inner transform =>
      whenOk (zparse inner v) transform
  end.

(** *** Schema methods *)

(** [zod.extend(augmentation)]: [{...shape, ...augmentation}]. *)
Definition extend (shape augmentation : list (string * Zod))
  : list (string * Zod) :=
  objSpread shape augmentation.

(** [ZodArray.min], [.max], [.length] and [.nonempty]; each bound has one
    slot, so a later call replaces an earlier one of the same kind.  In
    the zod release the builders run, [length(n)] is [min(n).max(n)]: it
    replaces a minimum and a maximum set before it, and the schema's own
    exact-length slot, which later releases fill, stays empty. *)
Definition array_min (n : Z) (z : Zod) : Zod :=
  match z with
  | ZodArray e _ mx ex => ZodArray e (Some n) mx ex
  | _ => z
  end.

Definition array_max (n : Z) (z : Zod) : Zod :=
  match z with
  | ZodArray e mn _ ex => ZodArray e mn (Some n) ex
  | _ => z
  end.

Definition array_nonempty (z : Zod) : Zod := array_min 1 z.

Definition array_length (n : Z) (z : Zod) : Zod :=
  array_max n (array_min n z).

(** [ZodString.min], [.max], [.length] and [.regex] append checks; an
    exact length is a minimum and a maximum. *)
Definition string_check (c : StringCheck) (z : Zod) : Zod :=
  match z with
  | ZodString checks => ZodString (checks ++ [c])
  | _ => z
  end.

Definition string_min (n : Z) : Zod -> Zod := string_check (CheckMin n).
Definition string_max (n : Z) : Zod -> Zod := string_check (CheckMax n).
Definition string_length (n : Z) (z : Zod) : Zod :=
  string_max n (string_min n z).
Definition string_regex (re : RegExp) : Zod -> Zod :=
  string_check (CheckRegex re).

(** ** lodash/fp and JavaScript truthiness *)

(** [flow(f1, ..., fn)(x)]: left-to-right composition. *)
Definition flow {A : Type} (fs : list (A -> A)) (x : A) : A :=
  fold_left (fun acc f => f acc) fs x.

(** [(x) => (!n ? x : f(n, x))] for [n : number | undefined]: zero is
    falsy, like [undefined]. *)
Definition unlessFalsy {A : Type} (n : option Z) (f : Z -> A -> A)
  : A -> A :=
  fun x =>
    match n with
    | Some m => if (m =? 0)%Z then x else f m x
    | None => x
    end.

(** [(x) => (n === undefined ? x : f(n, x))]. *)
Definition unlessUndefined {A B : Type} (n : option B) (f : B -> A -> A)
  : A -> A :=
  fun x =>
    match n with
    | Some m => f m x
    | None => x
    end.

(** [(x) => (!b ? x : f(x))] for [b : boolean | undefined]. *)
Definition unlessFalse {A : Type} (b : option bool) (f : A -> A)
  : A -> A :=
  fun x =>
    match b with
    | Some true => f x
    | _ => x
    end.

(** [(rule) => validation?.(rule) ?? rule]. *)
Definition customValidation (validation : option (Rule -> Rule))
  : Rule -> Rule :=
  fun rule =>
    match validation with
    | Some f => f rule
    | None => rule
    end.

(** ** Nodes *)

(** What every node offers: its zod schema, [parse] (always
    [zod.parse.bind(zod)]) and its descriptor producer. *)
Record SanityType : Type := {
  zod : Zod;
  parse : Value -> ParseResult;
  schema : unit -> Descr
}.

(** Nodes that also produce mocks; [mock] takes the structural path. *)
Record MockedType : Type := {
  node :> SanityType;
  mock : string -> Value
}.

(** A text node: its mock takes no path and draws from the module-level
    generator, so it is followed from the generator's state at the call
    to the value and the generator's state after it. *)
Record TextType : Type := {
  text_node :> SanityType;
  text_mock : Faker -> Value * Faker
}.

(** Typed reads of the properties of a definition object. *)
Definition numProp (k : string) (def : list (string * Descr)) : option Z :=
  match objGet k def with
  | Some (DVal (VNum n)) => Some n
  | _ => None
  end.

Definition regexProp (k : string) (def : list (string * Descr))
  : option RegExp :=
  match objGet k def with
  | Some (DRegExp re) => Some re
  | _ => None
  end.

Definition validationProp (k : string) (def : list (string * Descr))
  : option (Rule -> Rule) :=
  match objGet k def with
  | Some (DValidation f) => Some f
  | _ => None
  end.

(** A field set as a container builder consumes it: the descriptor
    producer, the mock producer (a record, one value per field) and the
    shape of its object schema.  The field-set builder itself is not
    part of the modelled sources. *)
Record FieldsType : Type := {
  fields_schema : unit -> Descr;
  fields_mock : string -> list (string * Value);
  fields_shape : list (string * Zod)
}.

(** A document as a reference reads it: its declared name and its node. *)
Record DocumentType : Type := {
  name : string;
  document_node :> SanityType
}.

(** The variables a reference node closes over. *)
Record ReferenceType : Type := {
  reference_def : list (string * Descr);
  reference_documents : list DocumentType
}.

(** The variable an item set closes over. *)
Record ItemsType : Type := {
  items_items : list SanityType
}.

Record ArrayDef : Type := {
  array_def_length : option Z;
  array_def_max : option Z;
  array_def_min : option Z;
  array_def_nonempty : option bool;
  array_def_of : ItemsType;
  array_def_mock : option (Faker -> string -> Value);
  array_def_validation : option (Rule -> Rule);
  array_def_rest : list (string * Descr)
}.

Record ObjectNamedDef : Type := {
  objectNamed_name : string;
  objectNamed_preview : option Descr;
  objectNamed_fields : FieldsType;
  objectNamed_mock : option (Faker -> string -> Value);
  objectNamed_rest : list (string * Descr)
}.

Record ObjectNamedType : Type := {
  objectNamed_node :> MockedType;
  ref : unit -> MockedType
}.

Record DocumentDef : Type := {
  document_name : string;
  document_preview : option Descr;
  document_fields : FieldsType;
  document_rest : list (string * Descr)
}.

(** [src/unnamed/part_001], [addKeyToZod]. *)
Definition addKeyToZod (zod : Zod) : Zod :=
  match zod with
  | ZodObject shape => ZodObject (extend shape [("_key", ZodString [])])
  | _ => zod
  end.

(** The element schema of [itemsInternal]: [z.never()] without items,
    the keyed item for one item, the union of the keyed items otherwise. *)
Definition elementZod (items : list SanityType) : Zod :=
  match items with
  | [] => ZodNever
  | [item0] => addKeyToZod (zod item0)
  | item0 :: item1 :: rest =>
      ZodUnion
        (addKeyToZod (zod item0)
           :: addKeyToZod (zod item1)
           :: map (fun it => addKeyToZod (zod it)) rest)
  end.

(** [z.string().transform((v) => new Date(v))]. *)
Definition toDate (v : Value) : Value :=
  match v with
  | VStr s => VDate s
  | _ => v
  end.

Definition zodDatetime : Zod := ZodEffects (ZodString []) toDate.

Section Builders.
(** The generator seeded by a structural path. *)
Variable seeded : string -> Faker.
(** What a callee sees as its path when it is handed the generator
    object in the path's position. *)
Variable pathOfFaker : Faker -> string.
(** [preview] of [../field], which is not part of the modelled
    sources: the preview projection of a descriptor. *)
Variable preview : option Descr -> Descr -> Descr.

(** Modelled from the spec: [createType] of [../types] is missing from
    the sources.  It completes a builder's [mock], [zod] and [schema]
    into a node: [parse] is the schema's parser, and [mock] is called
    with the generator seeded by the structural path, and that path. *)
Definition createType (mock : Faker -> string -> Value) (zod : Zod)
    (schema : unit -> Descr) : MockedType :=
  {| node := {| zod := zod; parse := zparse zod; schema := schema |};
     mock := fun path => mock (seeded path) path |}.

(** [src/unnamed/part_004], [text].  The [faker] its mock reads is the
    module-level generator of [@faker-js/faker]. *)
Definition text (def : list (string * Descr)) : TextType :=
  let length := numProp "length" def in
  let max := numProp "max" def in
  let min := numProp "min" def in
  let mock :=
    match objGet "mock" def with
    | Some (DMock f) => f
    | _ => fun faker => lorem_paragraphs faker
    end in
  let regex := regexProp "regex" def in
  let validation := validationProp "validation" def in
  let zod :=
    flow [ unlessFalsy min string_min;
           unlessFalsy max string_max;
           unlessFalsy length string_length;
           unlessUndefined regex string_regex ]
         (ZodString []) in
  {| text_node :=
       {| zod := zod;
          parse := zparse zod;
          schema := fun _ =>
            DObj (objSpread def
              [ ("type", DString "text");
                ("validation",
                 DValidation
                   (flow [ unlessFalsy min rule_min;
                           unlessFalsy max rule_max;
                           unlessFalsy length rule_length;
                           unlessUndefined regex rule_regex;
                           customValidation validation ])) ]) |};
     text_mock := fun faker =>
       let (paragraphs, faker') := mock faker in (VStr paragraphs, faker') |}.

(** [src/unnamed/part_000], [referenceInternal]: the node built over
    the captured [def] and [documents]. *)
Definition referenceZod : Zod :=
  ZodObject
    [ ("_ref", ZodString []);
      ("_type", ZodLiteral "reference");
      ("_weak", ZodOptional ZodBoolean) ].

Definition referenceInternal (def : list (string * Descr))
    (documents : list DocumentType) : ReferenceType :=
  {| reference_def := def; reference_documents := documents |}.

Definition reference_node (r : ReferenceType) : SanityType :=
  {| zod := referenceZod;
     parse := zparse referenceZod;
     schema := fun _ =>
       DObj (objSpread (reference_def r)
         [ ("type", DString "reference");
           ("to",
            DList (map (fun d => DObj [("type", DString (name d))])
                     (reference_documents r))) ]) |}.

(** The [to] method: [referenceInternal(def, [...documents, document])]. *)
Definition to (r : ReferenceType) (document : DocumentType)
  : ReferenceType :=
  referenceInternal (reference_def r) (reference_documents r ++ [document]).

Definition reference (def : list (string * Descr)) : ReferenceType :=
  referenceInternal def [].

(** [src/unnamed/part_001], [itemsInternal]. *)
Definition itemsInternal (items : list SanityType) : ItemsType :=
  {| items_items := items |}.

Definition items_node (its : ItemsType) : MockedType :=
  createType
    (fun _ _ => VArr [])
    (ZodArray (elementZod (items_items its)) None None None)
    (fun _ => DList (map (fun it => schema it tt) (items_items its))).

(** The [item] method: [itemsInternal([...items, item])]. *)
Definition items_item (its : ItemsType) (item : SanityType) : ItemsType :=
  itemsInternal (items_items its ++ [item]).

Definition item (item : SanityType) : ItemsType := itemsInternal [item].

(** [src/unnamed/part_001], [array]. *)
Definition array (def : ArrayDef) : MockedType :=
  let length := array_def_length def in
  let max := array_def_max def in
  let min := array_def_min def in
  let nonempty := array_def_nonempty def in
  let itemsSchema := schema (items_node (array_def_of def)) in
  let itemsMock := mock (items_node (array_def_of def)) in
  let itemsZod := zod (items_node (array_def_of def)) in
  let mock :=
    match array_def_mock def with
    | Some f => f
    | None => fun faker _ => itemsMock (pathOfFaker faker)
    end in
  let validation := array_def_validation def in
  createType
    mock
    (flow [ unlessFalse nonempty array_nonempty;
            unlessFalsy min array_min;
            unlessFalsy max array_max;
            unlessUndefined length array_length ]
          itemsZod)
    (fun _ =>
       DObj (objSpread (array_def_rest def)
         [ ("type", DString "array");
           ("of", itemsSchema tt);
           ("validation",
            DValidation
              (flow [ unlessFalse nonempty (rule_min 1);
                      unlessFalsy min rule_min;
                      unlessFalsy max rule_max;
                      unlessUndefined length rule_length;
                      customValidation validation ])) ])).

(** [src/src/objectNamed/index.ts], [objectNamed]. *)
Definition objectNamed (def : ObjectNamedDef) : ObjectNamedType :=
  let name := objectNamed_name def in
  let previewDef := objectNamed_preview def in
  let fieldsSchema := fields_schema (objectNamed_fields def) in
  let fieldsMock := fields_mock (objectNamed_fields def) in
  let fieldsShape := fields_shape (objectNamed_fields def) in
  let mock :=
    match objectNamed_mock def with
    | Some f => f
    | None => fun _ path =>
        VObj (objSpread (fieldsMock path) [("_type", VStr name)])
    end in
  let zod := ZodObject (extend fieldsShape [("_type", ZodLiteral name)]) in
  {| objectNamed_node :=
       createType mock zod
         (fun _ =>
            let schemaForFields := fieldsSchema tt in
            DObj (objSpread (objectNamed_rest def)
              [ ("name", DString name);
                ("type", DString "object");
                ("fields", schemaForFields);
                ("preview", preview previewDef schemaForFields) ]));
     ref := fun _ =>
       createType mock zod (fun _ => DObj [("type", DString name)]) |}.

(** Modelled from the spec: the document builder ([../document]) is
    missing from the sources; only its test suite is present.  A
    document is built from a declared name and a field set; its schema
    is the field set's, extended with the identity fields [_id],
    [_createdAt], [_updatedAt] and [_rev] and the literal type tag
    [_type]; the two timestamps are converted from wire strings into
    dates.  The descriptor carries the name, the type ["document"], the
    field list and the preview projection.  The mock and the resolver
    of a document are left out. *)
Definition document (def : DocumentDef) : DocumentType :=
  let name := document_name def in
  let fieldsSchema := fields_schema (document_fields def) in
  let fieldsShape := fields_shape (document_fields def) in
  let zod :=
    ZodObject
      (extend fieldsShape
         [ ("_createdAt", zodDatetime);
           ("_id", ZodString []);
           ("_rev", ZodString []);
           ("_type", ZodLiteral name);
           ("_updatedAt", zodDatetime) ]) in
  {| name := name;
     document_node :=
       {| zod := zod;
          parse := zparse zod;
          schema := fun _ =>
            let schemaForFields := fieldsSchema tt in
            DObj (objSpread (document_rest def)
              [ ("name", DString name);
                ("type", DString "document");
                ("fields", schemaForFields);
                ("preview",
                 preview (document_preview def) schemaForFields) ]) |} |}.
End Builders.

(** The names a reference descriptor points to: the [type] of each entry
    of its [to] list. *)
Definition typeName (d : Descr) : option string :=
  match d with
  | DObj props =>
      match objGet "type" props with
      | Some (DVal (VStr n)) => Some n
      | _ => None
      end
  | _ => None
  end.

Definition targets (d : Descr) : list string :=
  match d with
  | DObj props =>
      match objGet "to" props with
      | Some (DList l) => omap typeName l
      | _ => []
      end
  | _ => []
  end.

(** Whether a value is a record. *)
Definition isRecord (v : Value) : bool :=
  match v with
  | VObj _ => true
  | _ => false
  end.

(** Whether a value is a record with a string under [_key]. *)
Definition carriesKey (v : Value) : bool :=
  match v with
  | VObj props =>
      match objGet "_key" props with
      | Some (VStr _) => true
      | _ => false
      end
  | _ => false
  end.

(** The [validation] callback of a descriptor. *)
Definition validationOf (d : Descr) : Rule -> Rule :=
  match d with
  | DObj props =>
      match objGet "validation" props with
      | Some (DValidation f) => f
      | _ => fun rule => rule
      end
  | _ => fun rule => rule
  end.

(** ** The arrays the builders close over, as heap objects

    [referenceInternal] and [itemsInternal] capture a JavaScript array.
    Here the array lives at an address of a heap, and the [to] and [item]
    methods are followed at that level: [[...xs, x]] reads the captured
    array and allocates a fresh one. *)
Module Store.
Section Arrays.
Context {A : Type}.

Definition State (B : Type) : Type :=
  gmap nat (list A) -> B * gmap nat (list A).

Definition ret {B : Type} (b : B) : State B := fun h => (b, h).

Definition bind {B C : Type} (m : State B) (k : B -> State C)
  : State C :=
  fun h => let (b, h') := m h in k b h'.

(** An array literal: a new object at a fresh address. *)
Definition alloc (xs : list A) : State nat :=
  fun h => let l := fresh (dom h) in (l, <[l := xs]> h).

(** The elements of the array at [l]; the builders only hold addresses
    that [alloc] returned. *)
Definition elements (l : nat) (h : gmap nat (list A)) : list A :=
  default [] (h !! l).

Definition read (l : nat) : State (list A) :=
  fun h => (elements l h, h).

(** [[...xs, x]] *)
Definition spreadAppend (l : nat) (x : A) : State nat :=
  bind (read l) (fun xs => alloc (xs ++ [x])).
End Arrays.

(** A reference node: the captured [def] and the address of the
    captured [documents]. *)
Record Reference : Type := {
  def : list (string * Descr);
  documents : nat
}.

Definition referenceInternal (def : list (string * Descr))
    (documents : nat) : Reference :=
  {| def := def; documents := documents |}.

Definition to (r : Reference) (document : DocumentType)
  : State (A := DocumentType) Reference :=
  bind (spreadAppend (documents r) document)
       (fun documents' => ret (referenceInternal (def r) documents')).

Definition reference (def : list (string * Descr))
  : State (A := DocumentType) Reference :=
  bind (alloc []) (fun documents => ret (referenceInternal def documents)).

(** An item set: the address of the captured [items]. *)
Record Items : Type := { items : nat }.

Definition itemsInternal (items : nat) : Items := {| items := items |}.

Definition items_item (its : Items) (item : SanityType)
  : State (A := SanityType) Items :=
  bind (spreadAppend (items its) item)
       (fun items' => ret (itemsInternal items')).

Definition item (item : SanityType) : State (A := SanityType) Items :=
  bind (alloc [item]) (fun items => ret (itemsInternal items)).

(** The node a heap object denotes in a given heap. *)
Definition reference_in (h : gmap nat (list DocumentType))
    (r : Reference) : ReferenceType :=
  {| reference_def := def r;
     reference_documents := elements (documents r) h |}.

Definition items_in (h : gmap nat (list SanityType)) (its : Items)
  : ItemsType :=
  {| items_items := elements (items its) h |}.
End Store.

(** A property of a descriptor record. *)
Definition descriptorProp (k : string) (d : Descr) : option Descr :=
  match d with
  | DObj props => objGet k props
  | _ => None
  end.

(** ** Sample schemas

    Concrete nodes and raw values, after the ones of the test suites. *)
Module Sample.
Definition generator : Faker :=
  {| position := 0;
     paragraphsAt := fun n =>
       match n with
       | 0 => "Lorem ipsum dolor sit amet."
       | _ => "Consectetur adipiscing elit."
       end |}.

Definition seeded (_ : string) : Faker := generator.
Definition pathOfFaker (_ : Faker) : string := "".
Definition noPreview (_ : option Descr) (_ : Descr) : Descr :=
  DVal VUndefined.

(** The empty field set. *)
Definition noFields : FieldsType :=
  {| fields_schema := fun _ => DList [];
     fields_mock := fun _ => [];
     fields_shape := [] |}.

(** [document({ name: "foo", ... })] *)
Definition foo : DocumentType :=
  document noPreview
    {| document_name := "foo"; document_preview := None;
       document_fields := noFields; document_rest := [] |}.

Definition fooValue : Value :=
  VObj [ ("_createdAt", VStr "2022-06-03T03:24:55.395Z");
         ("_id", VStr "2106a34f-315f-44bc-929b-bf8e9a3eba0d");
         ("_rev", VStr "somerevstring");
         ("_type", VStr "foo");
         ("_updatedAt", VStr "2022-06-03T03:24:55.395Z") ].

(** [objectNamed({ name: "foo", fields: fields() })] *)
Definition namedFoo : ObjectNamedDef :=
  {| objectNamed_name := "foo"; objectNamed_preview := None;
     objectNamed_fields := noFields; objectNamed_mock := None;
     objectNamed_rest := [] |}.

(** [reference()] *)
Definition pointer : SanityType := reference_node (reference []).

(** [{ _type: "reference", _ref: "somereference" }] *)
Definition pointerValue : Value :=
  VObj [("_type", VStr "reference"); ("_ref", VStr "somereference")].

Definition keyedPointerValue : Value :=
  VObj [ ("_ref", VStr "somereference"); ("_type", VStr "reference");
         ("_key", VStr "a1") ].

Definition plainArray (its : ItemsType) : ArrayDef :=
  {| array_def_length := None; array_def_max := None;
     array_def_min := None; array_def_nonempty := None;
     array_def_of := its; array_def_mock := None;
     array_def_validation := None; array_def_rest := [] |}.

(** [array({ of: item(reference()) })] *)
Definition pointers : ArrayDef := plainArray (item pointer).

(** [array({ of: item(reference()).item(text()) })] *)
Definition pointersOrTexts : ArrayDef :=
  plainArray (items_item (item pointer) (text [])).
End Sample.

(** A named object over one string field, and a bounded array. *)
Module Greeting.
Definition helloFields : FieldsType :=
  {| fields_schema := fun _ =>
       DList [DObj [("name", DString "hello"); ("type", DString "string")]];
     fields_mock := fun _ => [("hello", VStr "world")];
     fields_shape := [("hello", ZodString [])] |}.

(** [objectNamed({ name: "foo", fields: <hello: string> })] *)
Definition namedHello : ObjectNamedDef :=
  {| objectNamed_name := "foo"; objectNamed_preview := None;
     objectNamed_fields := helloFields; objectNamed_mock := None;
     objectNamed_rest := [] |}.

Definition helloValue : Value :=
  VObj [("_type", VStr "foo"); ("hello", VStr "world"); ("extra", VNull)].


(** A node whose schema is a transform over an object schema,
    [z.object({ a: z.boolean() }).transform((value) => value)]: its
    parsed values are records. *)
Definition flagged : SanityType :=
  let zod := ZodEffects (ZodObject [("a", ZodBoolean)]) (fun value => value) in
  {| zod := zod;
     parse := zparse zod;
     schema := fun _ => DObj [("type", DString "object")] |}.

(** [array({ of: item(flagged) })] *)
Definition flaggedArray : ArrayDef := Sample.plainArray (item flagged).

(** [reference({ hidden: false })] *)
Definition hiddenPointer : ReferenceType :=
  reference [("hidden", DVal (VBool false))].
End Greeting.

(** * Properties *)

(** ** Objects *)

Section ObjectFacts.
Context {A : Type}.
Implicit Types (k : string) (v : A) (o : list (string * A)).

Lemma objGet_objSet_eq k v o : objGet k (objSet k v o) = Some v.
Proof.
  induction o as [|[k' v'] o IH]; simpl.
  - by rewrite String.eqb_refl.
  - destruct (String.eqb k' k) eqn:E; simpl.
    + by rewrite String.eqb_refl.
    + by rewrite E.
Qed.

Lemma objGet_objSet_ne k k' v o :
  k ≠ k' -> objGet k (objSet k' v o) = objGet k o.
Proof.
  intros Hne. induction o as [|[k'' v''] o IH]; simpl.
  - destruct (String.eqb k' k) eqn:E; [|done].
    apply String.eqb_eq in E. congruence.
  - destruct (String.eqb k'' k') eqn:E; simpl.
    + apply String.eqb_eq in E. subst k''.
      destruct (String.eqb k' k) eqn:E'; [|done].
      apply String.eqb_eq in E'. congruence.
    + by rewrite IH.
Qed.
End ObjectFacts.

(** ** The parser *)

Lemma isOk_true {A : Type} (r : Result A) :
  isOk r = true <-> exists a, r = Ok a.
Proof.
  destruct r; simpl; split; eauto; try done.
  by intros [a Ha].
Qed.

Lemma both_Ok {A B C : Type} (f : A -> B -> C) ra rb c :
  both f ra rb = Ok c <-> exists a b, ra = Ok a /\ rb = Ok b /\ c = f a b.
Proof.
  destruct ra, rb; simpl; split.
  - intros [= <-]. eauto.
  - by intros (? & ? & [= ->] & [= ->] & ->).
  - done.
  - by intros (? & ? & _ & [=] & _).
  - done.
  - by intros (? & ? & [=] & _).
  - done.
  - by intros (? & ? & [=] & _).
Qed.

Lemma whenOk_Ok {A B : Type} (r : Result A) (f : A -> B) b :
  whenOk r f = Ok b <-> exists a, r = Ok a /\ b = f a.
Proof.
  destruct r; simpl; split.
  - intros [= <-]. eauto.
  - by intros (? & [= ->] & ->).
  - done.
  - by intros (? & [=] & _).
Qed.

Lemma under_Ok {A : Type} seg (r : Result A) a :
  under seg r = Ok a <-> r = Ok a.
Proof. by destruct r. Qed.

Section LoopFacts.
Variable p : Value -> ParseResult.
Variable q : Zod -> Value -> ParseResult.

(** An array's elements parse exactly when each of them does, and the
    output lists the parsed elements in order. *)
Lemma parseElements_Ok i l ws :
  parseElements p i l = Ok ws <-> Forall2 (fun x w => p x = Ok w) l ws.
Proof.
  revert i ws. induction l as [|x l IH]; intros i ws; simpl.
  - split.
    + intros [= <-]. constructor.
    + intros H. by inversion H.
  - rewrite both_Ok. split.
    + intros (w & ws' & Hx & Hl & ->).
      apply under_Ok in Hx. constructor; [done|]. by apply (IH (S i)).
    + intros H. inversion H as [|? w ? ws' Hx Hl]; subst.
      exists w, ws'. split; [by apply under_Ok|].
      split; [by apply (IH (S i))|done].
Qed.


(** In a successful object parse the schema of every key of the shape
    accepted the input's property, and a defined result is the output's
    property. *)
Lemma parseShape_field shape input out k zk :
  parseShape q shape input = Ok out ->
  objGet k shape = Some zk ->
  exists w, q zk (prop k input) = Ok w /\
            (w <> VUndefined -> objGet k out = Some w).
Proof.
  revert out. induction shape as [|[k' zk'] shape IH]; intros out; [done|].
  simpl. rewrite both_Ok. intros (w' & out' & Hw' & Hout' & ->) Hk.
  apply under_Ok in Hw'.
  destruct (String.eqb k' k) eqn:E.
  - apply String.eqb_eq in E. subst k'. injection Hk as ->.
    exists w'. split; [done|]. intros Hdef.
    unfold setField.
    destruct w'; simpl; rewrite ?String.eqb_refl; done.
  - destruct (IH out' Hout' Hk) as (w & Hw & Hget).
    exists w. split; [done|]. intros Hdef.
    unfold setField.
    destruct w'; try destruct (objHas k' input); simpl; rewrite ?E; auto.
Qed.

End LoopFacts.

Lemma checkLength_Ok minLength maxLength exactLength len r :
  checkLength minLength maxLength exactLength len = Ok r <->
  (forall n, exactLength = Some n -> len = n) /\
  (forall n, minLength = Some n -> (n <= len)%Z) /\
  (forall n, maxLength = Some n -> (len <= n)%Z).
Proof.
  unfold checkLength. rewrite !both_Ok. split.
  - intros (? & ? & Hex & (? & ? & Hmin & Hmax & _)%both_Ok & _).
    repeat split; intros n ->; simpl in *.
    + destruct (Z.eqb_spec len n); done.
    + destruct (Z.ltb_spec len n); [done|lia].
    + destruct (Z.ltb_spec n len); [done|lia].
  - intros (Hex & Hmin & Hmax). destruct r. exists tt, tt.
    split; [|split; [|done]].
    + destruct exactLength as [n|]; simpl; [|done].
      rewrite (Hex n eq_refl). by rewrite Z.eqb_refl.
    + apply both_Ok. exists tt, tt. split; [|split; [|done]].
      * destruct minLength as [n|]; simpl; [|done].
        specialize (Hmin n eq_refl). destruct (Z.ltb_spec len n); [lia|done].
      * destruct maxLength as [n|]; simpl; [|done].
        specialize (Hmax n eq_refl). destruct (Z.ltb_spec n len); [lia|done].
Qed.

(** An array schema accepts exactly the arrays within its bounds whose
    elements the element schema accepts. *)
Lemma zparse_array_Ok element minLength maxLength exactLength v out :
  zparse (ZodArray element minLength maxLength exactLength) v = Ok out <->
  exists l ws,
    v = VArr l /\ out = VArr ws /\
    checkLength minLength maxLength exactLength (Z.of_nat (length l))
      = Ok tt /\
    Forall2 (fun x w => zparse element x = Ok w) l ws.
Proof.
  simpl. split.
  - destruct v; try done.
    intros ([] & ws & Hlen & Hel & ->)%both_Ok.
    apply parseElements_Ok in Hel. by exists elems, ws.
  - intros (l & ws & -> & -> & Hlen & Hel).
    apply both_Ok. exists tt, ws. by rewrite parseElements_Ok.
Qed.

Lemma zparse_object_Ok shape v out :
  zparse (ZodObject shape) v = Ok out <->
  exists input props,
    v = VObj input /\ out = VObj props /\
    parseShape zparse shape input = Ok props.
Proof.
  simpl. split.
  - destruct v; try done.
    intros (out' & Hout & ->)%whenOk_Ok. by exists props, out'.
  - intros (input & props & -> & -> & H). by rewrite H.
Qed.


Lemma zparse_string_Ok checks v w :
  zparse (ZodString checks) v = Ok w -> exists s, v = VStr s /\ w = VStr s.
Proof.
  simpl. destruct v; try done.
  intros (? & _ & ->)%whenOk_Ok. eauto.
Qed.

Lemma zparse_literal_Ok value v w :
  zparse (ZodLiteral value) v = Ok w -> v = VStr value /\ w = VStr value.
Proof.
  simpl. destruct v; try done.
  destruct (String.eqb_spec s value); [|done].
  intros [= <-]. by subst.
Qed.

(** ** The builders *)

Section Claims.
Variable seeded : string -> Faker.
Variable pathOfFaker : Faker -> string.
Variable preview : option Descr -> Descr -> Descr.

Local Abbreviation array := (array seeded pathOfFaker).
Local Abbreviation objectNamed := (objectNamed seeded preview).
Local Abbreviation document := (document preview).

(** The schema [array] builds: the item set's array schema with the
    bounds the [flow] leaves on it. *)
Lemma array_zod def :
  zod (array def) =
  ZodArray (elementZod (items_items (array_def_of def)))
    (match array_def_length def with
     | Some n => Some n
     | None =>
         match array_def_min def with
         | Some m =>
             if (m =? 0)%Z
             then (if array_def_nonempty def is Some true then Some 1%Z
                   else None)
             else Some m
         | None =>
             if array_def_nonempty def is Some true then Some 1%Z else None
         end
     end)
    (match array_def_length def with
     | Some n => Some n
     | None =>
         match array_def_max def with
         | Some m => if (m =? 0)%Z then None else Some m
         | None => None
         end
     end)
    None.
Proof.
  destruct def as [len mx mn ne its mk val rest]; simpl.
  unfold flow, unlessFalse, unlessFalsy, unlessUndefined; simpl.
  destruct ne as [[]|], mn as [mn|], mx as [mx|], len as [len|]; simpl;
    repeat (destruct (_ =? 0)%Z; simpl); reflexivity.
Qed.

Lemma array_parse def v : parse (array def) v = zparse (zod (array def)) v.
Proof. reflexivity. Qed.

(** The default mock of an array is the item set's mock: no elements. *)
Lemma array_default_mock def path :
  array_def_mock def = None -> mock (array def) path = VArr [].
Proof. intros H. simpl. by rewrite H. Qed.


(** What the bounds of an array node enforce on an accepted input: a
    declared exact length, which replaces the other bounds; without one,
    the minimum, a non-zero maximum, and the non-empty flag unless a
    minimum below one replaces it. *)
Lemma array_cardinality def l out :
  parse (array def) (VArr l) = Ok out ->
  (forall n, array_def_length def = Some n -> Z.of_nat (length l) = n) /\
  (array_def_length def = None ->
   (forall n, array_def_min def = Some n -> (n <= Z.of_nat (length l))%Z) /\
   (forall n, array_def_max def = Some n -> n <> 0%Z ->
              (Z.of_nat (length l) <= n)%Z) /\
   (array_def_nonempty def = Some true ->
    (forall n, array_def_min def = Some n -> (0 <= n)%Z) ->
    (1 <= Z.of_nat (length l))%Z)).
Proof.
  rewrite array_parse, array_zod.
  intros (l' & ws & [= <-] & -> & Hlen & _)%zparse_array_Ok.
  apply checkLength_Ok in Hlen as (_ & Hmin & Hmax).
  split.
  - intros n Hn. rewrite Hn in Hmin, Hmax.
    specialize (Hmin n eq_refl). specialize (Hmax n eq_refl). lia.
  - intros Hnone. rewrite Hnone in Hmin, Hmax. repeat split.
    + intros n Hn. rewrite Hn in Hmin.
      destruct (Z.eqb_spec n 0); [lia|]. by apply Hmin.
    + intros n Hn Hn0. rewrite Hn in Hmax.
      destruct (Z.eqb_spec n 0); [done|]. by apply Hmax.
    + intros Hne Hpos. rewrite Hne in Hmin.
      destruct (array_def_min def) as [m|]; [|by apply Hmin].
      specialize (Hpos m eq_refl).
      destruct (Z.eqb_spec m 0); [by apply Hmin|].
      specialize (Hmin m eq_refl). lia.
Qed.
(** C1.  An array node built with [nonempty], or with a minimum of at
    least one element, and no mock override: its mock is the item set's
    mock, the empty array, at every path, and its own parser rejects
    that value as too small.  So [parse(mock(path))] fails for these
    nodes, whatever item kinds are declared. *)
Theorem array_mock_below_lower_bound its validation rest path (m : positive) :
  let nonEmpty :=
    array {| array_def_length := None; array_def_max := None;
             array_def_min := None; array_def_nonempty := Some true;
             array_def_of := its; array_def_mock := None;
             array_def_validation := validation;
             array_def_rest := rest |} in
  let atLeastM :=
    array {| array_def_length := None; array_def_max := None;
             array_def_min := Some (Z.pos m); array_def_nonempty := None;
             array_def_of := its; array_def_mock := None;
             array_def_validation := validation;
             array_def_rest := rest |} in
  mock nonEmpty path = VArr [] /\
  parse nonEmpty (mock nonEmpty path) = ZodError [issue "too_small"] /\
  mock atLeastM path = VArr [] /\
  parse atLeastM (mock atLeastM path) = ZodError [issue "too_small"].
Proof. by repeat split. Qed.

(** Without an effective lower bound the default mock does parse. *)
Lemma array_mock_parses_unbounded def path :
  array_def_mock def = None ->
  array_def_nonempty def <> Some true ->
  (forall n, array_def_min def = Some n -> (n <= 0)%Z) ->
  (forall n, array_def_max def = Some n -> (0 <= n)%Z) ->
  (forall n, array_def_length def = Some n -> n = 0%Z) ->
  parse (array def) (mock (array def) path) = Ok (VArr []).
Proof.
  intros Hmock Hne Hmin Hmax Hlen.
  rewrite array_default_mock, array_parse, array_zod by done.
  apply zparse_array_Ok. exists [], []. repeat split; [|constructor].
  apply checkLength_Ok. simpl. repeat split.
  - done.
  - intros n Hn. destruct (array_def_length def) as [len|].
    + injection Hn as <-. by rewrite (Hlen len eq_refl).
    + destruct (array_def_min def) as [k|].
      * specialize (Hmin k eq_refl).
        destruct (Z.eqb_spec k 0).
        -- by destruct (array_def_nonempty def) as [[]|].
        -- injection Hn as <-. done.
      * by destruct (array_def_nonempty def) as [[]|].
  - intros n Hn. destruct (array_def_length def) as [len|].
    + injection Hn as <-. by rewrite (Hlen len eq_refl).
    + destruct (array_def_max def) as [k|]; [|done].
      specialize (Hmax k eq_refl).
      destruct (Z.eqb_spec k 0); [done|]. by injection Hn as <-.
Qed.

(** C5.  An array of text items declared with [max: 0]: the zero is
    falsy, so no upper bound reaches the schema or the descriptor; a
    one-element input, whose length violates the declared maximum, is
    accepted, and the descriptor's validation makes no [max] call.  The
    exact length, tested against [undefined], keeps its zero. *)
Theorem array_max_zero_not_enforced s rule :
  let capped :=
    array {| array_def_length := None; array_def_max := Some 0%Z;
             array_def_min := None; array_def_nonempty := None;
             array_def_of := item (text []); array_def_mock := None;
             array_def_validation := None; array_def_rest := [] |} in
  let exact :=
    array {| array_def_length := Some 0%Z; array_def_max := None;
             array_def_min := None; array_def_nonempty := None;
             array_def_of := item (text []); array_def_mock := None;
             array_def_validation := None; array_def_rest := [] |} in
  parse capped (VArr [VStr s]) = Ok (VArr [VStr s]) /\
  validationOf (schema capped tt) rule = rule /\
  parse exact (VArr [VStr s]) = ZodError [issue "too_big"] /\
  validationOf (schema exact tt) rule = rule ++ [RuleLength 0].
Proof. by repeat split. Qed.

(** C10.  An array over an item set without items and without
    cardinality constraints accepts the empty array and nothing else. *)
Theorem array_of_no_items mock validation rest v :
  let a :=
    array {| array_def_length := None; array_def_max := None;
             array_def_min := None; array_def_nonempty := None;
             array_def_of := itemsInternal []; array_def_mock := mock;
             array_def_validation := validation;
             array_def_rest := rest |} in
  zod a = ZodArray ZodNever None None None /\
  (isOk (parse a v) = true <-> v = VArr []) /\
  parse a (VArr []) = Ok (VArr []).
Proof.
  simpl. split; [done|]. split; [|done]. split.
  - intros [out Hout]%isOk_true.
    change (zparse (ZodArray ZodNever None None None) v = Ok out) in Hout.
    apply zparse_array_Ok in Hout as (l & ws & -> & _ & _ & Hel).
    destruct Hel as [|x w l ws Hx _]; [done|]. done.
  - by intros ->.
Qed.
Lemma elementZod_union items :
  2 <= length items ->
  elementZod items = ZodUnion (map (fun it => addKeyToZod (zod it)) items).
Proof. destruct items as [|? [|? ?]]; simpl; [lia|lia|done]. Qed.

Lemma keyed_object_carries_key shape x e :
  zparse (addKeyToZod (ZodObject shape)) x = Ok e -> carriesKey e = true.
Proof.
  intros (input & props & -> & -> & Hshape)%zparse_object_Ok.
  destruct (parseShape_field zparse _ _ _ "_key" (ZodString []) Hshape)
    as (w & Hw & Hget).
  { unfold extend, objSpread. simpl. apply objGet_objSet_eq. }
  apply zparse_string_Ok in Hw as (k & _ & ->).
  simpl. by rewrite Hget.
Qed.

(** C3 (amended).  An array over an item set of exactly one item.  If
    the item's schema is an object schema, the element schema is that
    object extended with a string [_key], and every parsed element is a
    record carrying a string under [_key].  If the item's schema is not
    an object schema, whatever its parsed values are, the element schema
    is the item's own, so every parsed element is what the item's schema
    yields on the raw element and no key is added. *)
Theorem single_item_key def it :
  items_items (array_def_of def) = [it] ->
  (forall shape, zod it = ZodObject shape ->
     elementZod [it] = ZodObject (extend shape [("_key", ZodString [])]) /\
     forall raw out, parse (array def) raw = Ok out ->
       exists es, out = VArr es /\ Forall (fun e => carriesKey e = true) es)
  /\
  ((forall shape, zod it <> ZodObject shape) ->
     elementZod [it] = zod it /\
     forall raw out, parse (array def) raw = Ok out ->
       exists l es, raw = VArr l /\ out = VArr es /\
         Forall2 (fun x e => zparse (zod it) x = Ok e) l es).
Proof.
  intros Hits. split.
  - intros shape Hz. split; [simpl; by rewrite Hz|].
    intros raw out. rewrite array_parse, array_zod, Hits. simpl.
    rewrite Hz.
    intros (l & es & -> & -> & _ & Hel)%zparse_array_Ok.
    exists es. split; [done|].
    induction Hel as [|x e l es Hx _ IH]; constructor; [|done].
    by eapply keyed_object_carries_key.
  - intros Hz.
    assert (HaddKey : addKeyToZod (zod it) = zod it).
    { destruct (zod it) eqn:E; try done. by destruct (Hz shape). }
    split; [done|].
    intros raw out. rewrite array_parse, array_zod, Hits. simpl.
    rewrite HaddKey.
    intros (l & es & -> & -> & _ & Hel)%zparse_array_Ok. eauto.
Qed.

(** The descriptor of a reference names its captured documents, one
    entry each, in order. *)
Lemma reference_targets r :
  targets (schema (reference_node r) tt) = map name (reference_documents r).
Proof.
  simpl. unfold objSpread; simpl. rewrite objGet_objSet_eq.
  induction (reference_documents r) as [|d ds IH]; [done|].
  cbn. by f_equal.
Qed.

Lemma to_documents r documents :
  reference_documents (foldl to r documents) =
  reference_documents r ++ documents.
Proof.
  revert r. induction documents as [|d ds IH]; intros r; simpl.
  - by rewrite app_nil_r.
  - rewrite IH. simpl. by rewrite <- app_assoc.
Qed.

(** C2 (amended).  After any sequence of [to(document)] calls the
    descriptor's [to] list names the documents of the calls, one entry
    per call and in call order, without deduplication: adding a
    document twice in a row leaves its name twice. *)
Theorem reference_targets_one_per_call def documents d :
  targets (schema (reference_node (foldl to (reference def) documents)) tt)
    = map name documents /\
  targets (schema (reference_node
                     (to (to (foldl to (reference def) documents) d) d)) tt)
    = map name documents ++ [name d; name d].
Proof.
  rewrite !reference_targets. simpl.
  rewrite to_documents. simpl. split; [done|].
  rewrite <- app_assoc. simpl. by rewrite map_app.
Qed.

Lemma extend_type_tag (shape : list (string * Zod)) value :
  objGet "_type" (extend shape [("_type", ZodLiteral value)])
    = Some (ZodLiteral value).
Proof. unfold extend, objSpread. simpl. apply objGet_objSet_eq. Qed.

(** C6.  A named object node: a raw value its parser accepts is a
    record whose [_type] is the declared name, and so is the output;
    the default mock is the field set's mock with [_type] set to the
    name; the descriptor's field list is the field set's own, into
    which no tag is written. *)
Theorem objectNamed_type_tag def :
  (forall raw out,
     parse (objectNamed def) raw = Ok out ->
     exists input props,
       raw = VObj input /\ out = VObj props /\
       prop "_type" input = VStr (objectNamed_name def) /\
       objGet "_type" props = Some (VStr (objectNamed_name def))) /\
  (objectNamed_mock def = None ->
   forall path,
     mock (objectNamed def) path =
     VObj (objSet "_type" (VStr (objectNamed_name def))
             (fields_mock (objectNamed_fields def) path))) /\
  (exists props,
     schema (objectNamed def) tt = DObj props /\
     objGet "fields" props
       = Some (fields_schema (objectNamed_fields def) tt)).
Proof.
  split; [|split].
  - intros raw out.
    intros (input & props & -> & -> & Hshape)%zparse_object_Ok.
    exists input, props. split; [done|]. split; [done|].
    destruct (parseShape_field zparse _ _ _ _ _ Hshape
                (extend_type_tag _ _)) as (w & Hw & Hget).
    apply zparse_literal_Ok in Hw as [Hin ->].
    split; [done|]. by apply Hget.
  - intros Hmock path. simpl. by rewrite Hmock.
  - eexists. split; [reflexivity|].
    unfold objSpread; simpl.
    rewrite objGet_objSet_ne by done. apply objGet_objSet_eq.
Qed.

(** C7.  The node returned by [ref()] has the bare pointer
    [{type: name}] as its descriptor, and the schema, parser and mock
    of the named object it was taken from; both nodes therefore map
    every raw input to the same result. *)
Theorem objectNamed_ref_delegates def :
  schema (ref (objectNamed def) tt) tt
    = DObj [("type", DString (objectNamed_name def))] /\
  zod (ref (objectNamed def) tt) = zod (objectNamed def) /\
  parse (ref (objectNamed def) tt) = parse (objectNamed def) /\
  mock (ref (objectNamed def) tt) = mock (objectNamed def) /\
  (forall raw,
     parse (ref (objectNamed def) tt) raw = parse (objectNamed def) raw).
Proof. by repeat split. Qed.
Lemma zparse_datetime_Ok v w :
  zparse zodDatetime v = Ok w -> exists s, v = VStr s /\ w = VDate s.
Proof.
  unfold zodDatetime.
  change (zparse (ZodEffects (ZodString []) toDate) v)
    with (whenOk (zparse (ZodString []) v) toDate).
  intros (w' & (s & -> & ->)%zparse_string_Ok & ->)%whenOk_Ok. eauto.
Qed.

(** The identity fields of a document's shape. *)
Lemma document_shape def :
  exists shape,
    zod (document def) = ZodObject shape /\
    objGet "_createdAt" shape = Some zodDatetime /\
    objGet "_id" shape = Some (ZodString []) /\
    objGet "_rev" shape = Some (ZodString []) /\
    objGet "_type" shape = Some (ZodLiteral (document_name def)) /\
    objGet "_updatedAt" shape = Some zodDatetime.
Proof.
  eexists. split; [reflexivity|].
  unfold extend, objSpread. simpl.
  repeat split;
    repeat (rewrite objGet_objSet_ne by done); apply objGet_objSet_eq.
Qed.

(** C9.  A document node: a raw value its parser accepts is a record
    whose [_type] is the declared name; the output carries that tag,
    the [_id] and [_rev] strings of the input, and [_createdAt] and
    [_updatedAt] as the dates built from the input's wire strings.  A
    raw value with another type tag is rejected. *)
Theorem document_identity_fields def :
  (forall raw out,
     parse (document def) raw = Ok out ->
     exists input props id rev created updated,
       raw = VObj input /\ out = VObj props /\
       prop "_type" input = VStr (document_name def) /\
       objGet "_type" props = Some (VStr (document_name def)) /\
       prop "_id" input = VStr id /\
       objGet "_id" props = Some (VStr id) /\
       prop "_rev" input = VStr rev /\
       objGet "_rev" props = Some (VStr rev) /\
       prop "_createdAt" input = VStr created /\
       objGet "_createdAt" props = Some (VDate created) /\
       prop "_updatedAt" input = VStr updated /\
       objGet "_updatedAt" props = Some (VDate updated)) /\
  (forall input,
     prop "_type" input <> VStr (document_name def) ->
     isOk (parse (document def) (VObj input)) = false).
Proof.
  assert (Hparse : forall raw out,
    parse (document def) raw = Ok out ->
    exists input props id rev created updated,
      raw = VObj input /\ out = VObj props /\
      prop "_type" input = VStr (document_name def) /\
      objGet "_type" props = Some (VStr (document_name def)) /\
      prop "_id" input = VStr id /\
      objGet "_id" props = Some (VStr id) /\
      prop "_rev" input = VStr rev /\
      objGet "_rev" props = Some (VStr rev) /\
      prop "_createdAt" input = VStr created /\
      objGet "_createdAt" props = Some (VDate created) /\
      prop "_updatedAt" input = VStr updated /\
      objGet "_updatedAt" props = Some (VDate updated)).
  { intros raw out.
    change (parse (document def) raw) with (zparse (zod (document def)) raw).
    destruct (document_shape def)
      as (shape & -> & Hcreated & Hid & Hrev & Htype & Hupdated).
    intros (input & props & -> & -> & Hshape)%zparse_object_Ok.
    destruct (parseShape_field zparse _ _ _ _ _ Hshape Hcreated)
      as (wc & (created & Hc & ->)%zparse_datetime_Ok & Hgc).
    destruct (parseShape_field zparse _ _ _ _ _ Hshape Hid)
      as (wi & (id & Hi & ->)%zparse_string_Ok & Hgi).
    destruct (parseShape_field zparse _ _ _ _ _ Hshape Hrev)
      as (wr & (rev & Hr & ->)%zparse_string_Ok & Hgr).
    destruct (parseShape_field zparse _ _ _ _ _ Hshape Htype)
      as (wt & [Ht ->]%zparse_literal_Ok & Hgt).
    destruct (parseShape_field zparse _ _ _ _ _ Hshape Hupdated)
      as (wu & (updated & Hu & ->)%zparse_datetime_Ok & Hgu).
    exists input, props, id, rev, created, updated.
    repeat split; auto. }
  split; [done|].
  intros input Htag.
  destruct (parse (document def) (VObj input)) as [out|e] eqn:E; [|done].
  apply Hparse in E
    as (input' & ? & ? & ? & ? & ? & [= <-] & _ & Ht & _).
  by destruct Htag.
Qed.
End Claims.

(** ** Captured arrays are never written *)

Section StoreFacts.
Context {A : Type}.
Implicit Types (h : gmap nat (list A)) (l : nat) (x : A).

(** [[...xs, x]] yields a new array holding the old elements followed
    by [x], and leaves every array of the heap as it was. *)
Lemma spreadAppend_spec h l x :
  Store.elements (Store.spreadAppend l x h).1 (Store.spreadAppend l x h).2
    = Store.elements l h ++ [x] /\
  h !! (Store.spreadAppend l x h).1 = None /\
  (forall k, is_Some (h !! k) ->
     (Store.spreadAppend l x h).2 !! k = h !! k).
Proof.
  unfold Store.spreadAppend, Store.bind, Store.read, Store.alloc,
    Store.elements. simpl.
  pose proof (is_fresh (dom h)) as Hfresh.
  apply not_elem_of_dom in Hfresh.
  split; [|split].
  - by rewrite lookup_insert_eq.
  - done.
  - intros k [xs Hk]. apply lookup_insert_ne. congruence.
Qed.
End StoreFacts.

Lemma to_run (h : gmap nat (list DocumentType)) r d :
  Store.to r d h =
  (Store.referenceInternal (Store.def r)
     (Store.spreadAppend (Store.documents r) d h).1,
   (Store.spreadAppend (Store.documents r) d h).2).
Proof.
  unfold Store.to, Store.bind, Store.ret.
  by destruct (Store.spreadAppend (Store.documents r) d h).
Qed.

Lemma items_item_run (h : gmap nat (list SanityType)) its x :
  Store.items_item its x h =
  (Store.itemsInternal (Store.spreadAppend (Store.items its) x h).1,
   (Store.spreadAppend (Store.items its) x h).2).
Proof.
  unfold Store.items_item, Store.bind, Store.ret.
  by destruct (Store.spreadAppend (Store.items its) x h).
Qed.

(** C8.  Followed on the heap, [r.to(D)] returns a node over a new
    array, at another address than the receiver's, holding [r]'s accumulated targets followed by [D], so its
    descriptor lists the previous targets and then [D]; the array [r]
    closes over is not written, so [r] denotes the same node, with the
    same descriptor, after the call.  Likewise [item] on an item set
    returns a set over a new array and leaves the receiver's array, and
    with it the receiver's descriptor, unchanged. *)
Theorem composition_does_not_mutate :
  (forall (h : gmap nat (list DocumentType)) r d,
     is_Some (h !! Store.documents r) ->
     let r' := (Store.to r d h).1 in
     let h' := (Store.to r d h).2 in
     Store.documents r' <> Store.documents r /\
     Store.reference_in h' r' = to (Store.reference_in h r) d /\
     targets (schema (reference_node (Store.reference_in h' r')) tt)
       = targets (schema (reference_node (Store.reference_in h r)) tt)
           ++ [name d] /\
     h' !! Store.documents r = h !! Store.documents r /\
     Store.reference_in h' r = Store.reference_in h r /\
     schema (reference_node (Store.reference_in h' r)) tt
       = schema (reference_node (Store.reference_in h r)) tt) /\
  (forall seeded (h : gmap nat (list SanityType)) its x,
     is_Some (h !! Store.items its) ->
     let its' := (Store.items_item its x h).1 in
     let h' := (Store.items_item its x h).2 in
     Store.items its' <> Store.items its /\
     Store.items_in h' its' = items_item (Store.items_in h its) x /\
     h' !! Store.items its = h !! Store.items its /\
     Store.items_in h' its = Store.items_in h its /\
     schema (items_node seeded (Store.items_in h' its)) tt
       = schema (items_node seeded (Store.items_in h its)) tt).
Proof.
  split.
  - intros h r d Hl.
    destruct (spreadAppend_spec h (Store.documents r) d)
      as (Hnew & Hfresh & Hframe).
    specialize (Hframe _ Hl).
    rewrite !to_run. cbv zeta. cbn [fst snd].
    set (l' := (Store.spreadAppend (Store.documents r) d h).1) in *.
    set (h' := (Store.spreadAppend (Store.documents r) d h).2) in *.
    assert (Hsame : Store.reference_in h' r = Store.reference_in h r).
    { unfold Store.reference_in, Store.elements. by rewrite Hframe. }
    assert (Hto : Store.reference_in h' (Store.referenceInternal
                                           (Store.def r) l')
                  = to (Store.reference_in h r) d).
    { unfold Store.reference_in, to, referenceInternal. simpl.
      by rewrite Hnew. }
    repeat split; try done.
    + simpl. intros Heq. rewrite Heq in Hfresh.
      rewrite Hfresh in Hl. by destruct Hl.
    + rewrite Hto, !reference_targets. simpl. by rewrite map_app.
    + by rewrite Hsame.
  - intros seeded h its x Hl.
    destruct (spreadAppend_spec h (Store.items its) x)
      as (Hnew & Hfresh & Hframe).
    specialize (Hframe _ Hl).
    rewrite !items_item_run. cbv zeta. cbn [fst snd].
    set (l' := (Store.spreadAppend (Store.items its) x h).1) in *.
    set (h' := (Store.spreadAppend (Store.items its) x h).2) in *.
    assert (Hsame : Store.items_in h' its = Store.items_in h its).
    { unfold Store.items_in, Store.elements. by rewrite Hframe. }
    repeat split; try done.
    + simpl. intros Heq. rewrite Heq in Hfresh.
      rewrite Hfresh in Hl. by destruct Hl.
    + unfold Store.items_in, items_item, itemsInternal. simpl.
      by rewrite Hnew.
    + by rewrite Hsame.
Qed.

(** ** The claims on the sample schemas *)

Lemma single_item_key_witness :
  items_items (array_def_of Sample.pointers) = [Sample.pointer] /\
  exists es,
    VArr [Sample.keyedPointerValue] = VArr es /\
    Forall (fun e => carriesKey e = true) es.
Proof.
  split; [reflexivity|].
  refine (proj2 (proj1 (single_item_key Sample.seeded Sample.pathOfFaker
                          Sample.pointers Sample.pointer eq_refl)
                   _ eq_refl) (VArr [Sample.keyedPointerValue]) _ _).
  reflexivity.
Defined.

(** C3 as stated fails: the one item of this array is a transform over
    an object schema, so its parsed values are records; the array's
    parser returns such a record as an element, with no key. *)
Lemma wrapped_record_item_gets_no_key :
  parse (array Sample.seeded Sample.pathOfFaker Greeting.flaggedArray)
    (VArr [VObj [("a", VBool true)]])
    = Ok (VArr [VObj [("a", VBool true)]]) /\
  parse Greeting.flagged (VObj [("a", VBool true)])
    = Ok (VObj [("a", VBool true)]) /\
  ~ (carriesKey (VObj [("a", VBool true)]) = true <->
     isRecord (VObj [("a", VBool true)]) = true).
Proof.
  split; [reflexivity|]. split; [reflexivity|].
  intros [_ H]. by specialize (H eq_refl).
Qed.



(** C2 as stated fails: the same document added twice is listed twice. *)
Lemma reference_repeats_target :
  ~ NoDup (targets
             (schema (reference_node
                        (to (to (reference []) Sample.foo) Sample.foo)) tt)).
Proof.
  change (~ NoDup ["foo"; "foo"]).
  intros H. apply NoDup_cons_1_1 in H. apply H. by left.
Qed.

Lemma objectNamed_type_tag_witness :
  parse (objectNamed Sample.seeded Sample.noPreview Sample.namedFoo)
    (VObj [("_type", VStr "foo")]) = Ok (VObj [("_type", VStr "foo")]) /\
  exists input props,
    VObj [("_type", VStr "foo")] = VObj input /\
    VObj [("_type", VStr "foo")] = VObj props /\
    prop "_type" input = VStr "foo" /\
    objGet "_type" props = Some (VStr "foo").
Proof.
  split; [reflexivity|].
  exact (proj1 (objectNamed_type_tag Sample.seeded Sample.noPreview
                  Sample.namedFoo)
           (VObj [("_type", VStr "foo")]) (VObj [("_type", VStr "foo")])
           eq_refl).
Defined.

Lemma document_identity_fields_witness :
  parse Sample.foo Sample.fooValue
    = Ok (VObj [ ("_createdAt", VDate "2022-06-03T03:24:55.395Z");
                 ("_id", VStr "2106a34f-315f-44bc-929b-bf8e9a3eba0d");
                 ("_rev", VStr "somerevstring");
                 ("_type", VStr "foo");
                 ("_updatedAt", VDate "2022-06-03T03:24:55.395Z") ]) /\
  isOk (parse Sample.foo (VObj [("_type", VStr "bar")])) = false.
Proof.
  split; [reflexivity|].
  refine (proj2 (document_identity_fields Sample.noPreview
                   {| document_name := "foo"; document_preview := None;
                      document_fields := Sample.noFields;
                      document_rest := [] |}) _ _).
  vm_compute. discriminate.
Defined.

Lemma composition_does_not_mutate_witness :
  is_Some (({[ 0 := [Sample.foo] ]} : gmap nat (list DocumentType)) !! 0) /\
  targets (schema (reference_node
     (Store.reference_in
        (Store.to (Store.referenceInternal [] 0) Sample.foo
           {[ 0 := [Sample.foo] ]}).2
        (Store.to (Store.referenceInternal [] 0) Sample.foo
           {[ 0 := [Sample.foo] ]}).1)) tt)
    = ["foo"] ++ ["foo"] /\
  Store.reference_in
    (Store.to (Store.referenceInternal [] 0) Sample.foo
       {[ 0 := [Sample.foo] ]}).2
    (Store.referenceInternal [] 0)
  = Store.reference_in {[ 0 := [Sample.foo] ]} (Store.referenceInternal [] 0).
Proof.
  assert (Hl : is_Some (({[ 0 := [Sample.foo] ]}
                          : gmap nat (list DocumentType)) !! 0))
    by (rewrite lookup_singleton_eq; eauto).
  split; [exact Hl|].
  destruct (proj1 composition_does_not_mutate
              {[ 0 := [Sample.foo] ]} (Store.referenceInternal [] 0)
              Sample.foo Hl) as (_ & _ & Htargets & _ & Hsame & _).
  split; [exact Htargets|exact Hsame].
Defined.

(** * Further properties of the builders *)

(** ** Shapes and objects *)

Section ShapeFacts.
Variable q : Zod -> Value -> ParseResult.

Lemma setField_app input k w out :
  setField input k w out = setField input k w [] ++ out.
Proof. unfold setField. destruct w; try done. by destruct (objHas k input). Qed.

(** Parsing the fields of two shapes in a row is parsing both, the
    outputs and the issues in a row. *)
Lemma parseShape_app shape1 shape2 input :
  parseShape q (shape1 ++ shape2) input =
  both app (parseShape q shape1 input) (parseShape q shape2 input).
Proof.
  induction shape1 as [|[k zk] shape1 IH]; simpl.
  - by destruct (parseShape q shape2 input).
  - rewrite IH.
    destruct (q zk (prop k input)) as [w|e], (parseShape q shape1 input),
      (parseShape q shape2 input); simpl; try done.
    + by rewrite (setField_app _ _ _ (a ++ a0)), (setField_app _ _ _ a),
        app_assoc.
    + by rewrite app_assoc.
Qed.

(** The fields of a shape parse exactly when each field's schema
    accepts the input's property. *)
Lemma parseShape_isOk shape input :
  isOk (parseShape q shape input) = true <->
  Forall (fun kz => isOk (q kz.2 (prop kz.1 input)) = true) shape.
Proof.
  induction shape as [|[k zk] shape IH]; simpl.
  - split; [constructor|done].
  - rewrite Forall_cons, <- IH. simpl.
    destruct (q zk (prop k input)), (parseShape q shape input); simpl;
      split; try done; by intros [? ?].
Qed.

(** The output of an object parse only has keys of the shape. *)
Lemma parseShape_keys shape input out k :
  parseShape q shape input = Ok out ->
  objHas k out = true -> objHas k shape = true.
Proof.
  revert out. induction shape as [|[k' zk] shape IH]; intros out; simpl.
  - by intros [= <-].
  - intros (w & out' & _ & Hout' & ->)%both_Ok.
    unfold objHas in *. simpl.
    destruct (String.eqb k' k) eqn:E; [done|].
    intros H. apply (IH out' Hout').
    unfold setField in H.
    destruct w; try destruct (objHas k' input); simpl in H;
      rewrite ?E in H; done.
Qed.
End ShapeFacts.

Section ObjectFacts2.
Context {A : Type}.
Implicit Types (k : string) (v : A) (o : list (string * A)).

(** Setting a key the object does not have appends the property. *)
Lemma objSet_fresh k v o : objGet k o = None -> objSet k v o = o ++ [(k, v)].
Proof.
  induction o as [|[k' v'] o IH]; simpl; [done|].
  destruct (String.eqb k' k); [done|]. intros H. by rewrite IH.
Qed.

Lemma objHas_objSet k k' v o :
  objHas k (objSet k' v o) = true -> k = k' \/ objHas k o = true.
Proof.
  destruct (String.eqb_spec k k') as [->|Hne]; [by left|].
  unfold objHas. rewrite objGet_objSet_ne by done. by right.
Qed.

(** In an object that binds each key once, setting a key leaves the
    other properties as they are. *)
Lemma In_objSet k v o k' v' :
  NoDup (map fst o) ->
  In (k', v') (objSet k v o) ->
  (k' = k /\ v' = v) \/ (k' <> k /\ In (k', v') o).
Proof.
  induction o as [|[k0 v0] o IH]; simpl.
  - intros _ [[= <- <-]|[]]. by left.
  - intros [Hk0 Hnd]%NoDup_cons.
    destruct (String.eqb_spec k0 k) as [->|Hne]; simpl.
    + intros [[= <- <-]|Hin]; [by left|]. right. split; [|by right].
      intros ->. apply Hk0. apply list_elem_of_In.
      apply (in_map fst) in Hin. done.
    + intros [[= <- <-]|Hin]; [right; split; [done|by left]|].
      destruct (IH Hnd Hin) as [?|[? ?]]; [by left|]. right. by split; [|right].
Qed.
End ObjectFacts2.

(** Extending a shape by a key it does not have: the extended schema
    accepts a record exactly when the shape accepts it and the new
    field's schema accepts its property, and the output is the shape's
    output followed by the new field. *)
Lemma zparse_extend_fresh shape k zk input out' :
  objGet k shape = None ->
  zparse (ZodObject (extend shape [(k, zk)])) (VObj input) = Ok out' <->
  exists out w,
    zparse (ZodObject shape) (VObj input) = Ok (VObj out) /\
    zparse zk (prop k input) = Ok w /\
    out' = VObj (out ++ setField input k w []).
Proof.
  intros Hfresh. unfold extend, objSpread. simpl fold_left.
  rewrite (objSet_fresh _ _ _ Hfresh).
  change (zparse (ZodObject (shape ++ [(k, zk)])) (VObj input))
    with (whenOk (parseShape zparse (shape ++ [(k, zk)]) input) VObj).
  change (zparse (ZodObject shape) (VObj input))
    with (whenOk (parseShape zparse shape input) VObj).
  rewrite parseShape_app. simpl parseShape.
  destruct (parseShape zparse shape input) as [out|e],
    (zparse zk (prop k input)) as [w|e']; simpl; split;
    try done;
    try (by intros (? & ? & [=] & _));
    try (by intros (? & ? & _ & [=] & _)).
  - intros [= <-]. by exists out, w.
  - by intros (? & ? & [= <-] & [= <-] & ->).
Qed.

(** The first option of a union that accepts a value decides the
    result. *)
Lemma parseOptions_first (q : Zod -> Value -> ParseResult) options v w :
  parseOptions q options v = Some w <->
  exists i o,
    options !! i = Some o /\ q o v = Ok w /\
    forall j o', j < i -> options !! j = Some o' -> isOk (q o' v) = false.
Proof.
  induction options as [|o options IH]; simpl.
  - split; [done|]. by intros (i & o & [=] & _).
  - destruct (q o v) as [w'|e] eqn:E.
    + split.
      * intros [= <-]. exists 0, o. repeat split; [done|]. intros; lia.
      * intros ([|i] & o' & Hi & Hw & Hfirst); simpl in Hi.
        -- injection Hi as <-. congruence.
        -- specialize (Hfirst 0 o ltac:(lia) eq_refl). by rewrite E in Hfirst.
    + rewrite IH. split.
      * intros (i & o' & Hi & Hw & Hfirst). exists (S i), o'.
        repeat split; [done..|].
        intros [|j] o'' Hj; simpl; [intros [= <-]; by rewrite E|].
        intros Ho''. apply (Hfirst j); [lia|done].
      * intros ([|i] & o' & Hi & Hw & Hfirst); simpl in Hi.
        -- injection Hi as <-. congruence.
        -- exists i, o'. repeat split; [done..|].
           intros j o'' Hj Ho''. apply (Hfirst (S j)); [lia|done].
Qed.

Section More.
Variable seeded : string -> Faker.
Variable pathOfFaker : Faker -> string.
Variable preview : option Descr -> Descr -> Descr.

Local Abbreviation array := (array seeded pathOfFaker).
Local Abbreviation objectNamed := (objectNamed seeded preview).

(** X1.  Over a field set that declares no [_type] field, a named
    object accepts a record exactly when its [_type] is the declared
    name and the field set's schema accepts the record; the output is the
    field set's output followed by the tag. *)
Theorem objectNamed_parse_over_fields def input out' :
  objGet "_type" (fields_shape (objectNamed_fields def)) = None ->
  parse (objectNamed def) (VObj input) = Ok out' <->
  prop "_type" input = VStr (objectNamed_name def) /\
  exists out,
    zparse (ZodObject (fields_shape (objectNamed_fields def))) (VObj input)
      = Ok (VObj out) /\
    out' = VObj (out ++ [("_type", VStr (objectNamed_name def))]).
Proof.
  intros Hfresh.
  change (parse (objectNamed def) (VObj input))
    with (zparse (ZodObject (extend (fields_shape (objectNamed_fields def))
                               [("_type",
                                 ZodLiteral (objectNamed_name def))]))
            (VObj input)).
  rewrite (zparse_extend_fresh _ _ _ _ _ Hfresh). split.
  - intros (out & w & Hout & [Htag ->]%zparse_literal_Ok & ->).
    split; [done|]. by exists out.
  - intros (Htag & out & Hout & ->).
    exists out, (VStr (objectNamed_name def)). split; [done|].
    split; [|done]. rewrite Htag. simpl. by rewrite String.eqb_refl.
Qed.

(** X2.  The output of a named object only has keys the field set
    declares, and the type tag: every other key of the raw value is
    stripped. *)
Theorem objectNamed_strips_unknown_keys def raw props k :
  parse (objectNamed def) raw = Ok (VObj props) ->
  objHas k props = true ->
  k = "_type" \/ objHas k (fields_shape (objectNamed_fields def)) = true.
Proof.
  intros (input & props' & -> & [= <-] & Hshape)%zparse_object_Ok Hk.
  apply (parseShape_keys _ _ _ _ k Hshape) in Hk.
  unfold extend, objSpread in Hk. simpl in Hk.
  by apply objHas_objSet in Hk.
Qed.

(** X3.  Over a field set that binds each field name once, the default
    mock of a named object satisfies the object's parser whenever the
    field set's mock satisfies the field set's schema. *)
Theorem objectNamed_mock_parses def path :
  objectNamed_mock def = None ->
  NoDup (map fst (fields_shape (objectNamed_fields def))) ->
  isOk (zparse (ZodObject (fields_shape (objectNamed_fields def)))
          (VObj (fields_mock (objectNamed_fields def) path))) = true ->
  isOk (parse (objectNamed def) (mock (objectNamed def) path)) = true.
Proof.
  intros Hmock Hnodup Hfields.
  simpl mock. rewrite Hmock. unfold objSpread. simpl fold_left.
  set (shape := fields_shape (objectNamed_fields def)) in *.
  set (fm := fields_mock (objectNamed_fields def) path) in *.
  set (name := objectNamed_name def).
  change (parse (objectNamed def) (VObj (objSet "_type" (VStr name) fm)))
    with (whenOk (parseShape zparse (objSet "_type" (ZodLiteral name) shape)
                    (objSet "_type" (VStr name) fm)) VObj).
  change (zparse (ZodObject shape) (VObj fm))
    with (whenOk (parseShape zparse shape fm) VObj) in Hfields.
  assert (Hok : isOk (parseShape zparse shape fm) = true)
    by (by destruct (parseShape zparse shape fm)).
  apply parseShape_isOk in Hok. rewrite Forall_forall in Hok.
  assert (Hall : isOk (parseShape zparse
                         (objSet "_type" (ZodLiteral name) shape)
                         (objSet "_type" (VStr name) fm)) = true).
  { apply parseShape_isOk, Forall_forall. intros [k zk] Hin.
    apply list_elem_of_In in Hin.
    apply (In_objSet _ _ _ _ _ Hnodup) in Hin as [[-> ->]|[Hne Hin]]; simpl.
    - unfold prop. rewrite objGet_objSet_eq. simpl.
      by rewrite String.eqb_refl.
    - unfold prop. rewrite objGet_objSet_ne by done.
      apply list_elem_of_In in Hin. apply (Hok _ Hin). }
  by destruct (parseShape zparse _ (objSet "_type" (VStr name) fm)).
Qed.

(** X4.  A record item whose shape has no [_key] field: the element
    schema of the one-item array accepts a record exactly when the item's
    schema accepts it and its [_key] is a string; the output is the
    item's output followed by the key. *)
Theorem keyed_record_item it shape input out' :
  zod it = ZodObject shape ->
  objGet "_key" shape = None ->
  zparse (elementZod [it]) (VObj input) = Ok out' <->
  exists key out,
    prop "_key" input = VStr key /\
    zparse (zod it) (VObj input) = Ok (VObj out) /\
    out' = VObj (out ++ [("_key", VStr key)]).
Proof.
  intros Hz Hfresh. simpl elementZod. rewrite Hz. unfold addKeyToZod.
  rewrite (zparse_extend_fresh _ _ _ _ _ Hfresh). split.
  - intros (out & w & Hout & (key & Hkey & ->)%zparse_string_Ok & ->).
    by exists key, out.
  - intros (key & out & Hkey & Hout & ->).
    exists out, (VStr key). split; [done|]. split; [|done].
    by rewrite Hkey.
Qed.

(** X5.  The element schema of any item set yields the result of the
    first declared item, in declaration order, whose keyed schema accepts
    the element. *)
Theorem element_first_matching_item items e w :
  zparse (elementZod items) e = Ok w <->
  exists i it,
    items !! i = Some it /\
    zparse (addKeyToZod (zod it)) e = Ok w /\
    forall j it', j < i -> items !! j = Some it' ->
      isOk (zparse (addKeyToZod (zod it')) e) = false.
Proof.
  destruct items as [|it0 [|it1 rest]].
  - simpl. split; [done|]. by intros (i & it & [=] & _).
  - simpl elementZod. split.
    + intros Hw. exists 0, it0. repeat split; [done..|]. intros; lia.
    + intros ([|i] & it & Hi & Hw & _); simpl in Hi; [|done].
      by injection Hi as <-.
  - rewrite elementZod_union by (simpl; lia).
    set (items := it0 :: it1 :: rest).
    change (zparse (ZodUnion (map (fun it => addKeyToZod (zod it)) items)) e)
      with (match parseOptions zparse
                     (map (fun it => addKeyToZod (zod it)) items) e with
            | Some w => Ok w
            | None => ZodError [issue "invalid_union"]
            end).
    split.
    + destruct (parseOptions _ _ e) as [w'|] eqn:E; [|done].
      intros [= ->]. apply parseOptions_first in E as (i & o & Hi & Hw & Hfirst).
      rewrite list_lookup_fmap in Hi.
      destruct (items !! i) as [it|] eqn:Hit; [|done].
      injection Hi as <-. exists i, it. repeat split; [done..|].
      intros j it' Hj Hit'. apply (Hfirst j); [done|].
      by rewrite list_lookup_fmap, Hit'.
    + intros (i & it & Hit & Hw & Hfirst).
      assert (E : parseOptions zparse
                    (map (fun it => addKeyToZod (zod it)) items) e = Some w).
      { apply parseOptions_first. exists i, (addKeyToZod (zod it)).
        split; [by rewrite list_lookup_fmap, Hit|]. split; [done|].
        intros j o' Hj Ho'. rewrite list_lookup_fmap in Ho'.
        destruct (items !! j) as [it'|] eqn:Hit'; [|done].
        injection Ho' as <-. by apply (Hfirst j). }
      by rewrite E.
Qed.
(** X6.  An array node accepts exactly the arrays whose elements the
    element schema accepts and whose length meets the bounds in force.
    A declared exact length is the only bound then: it replaces the
    declared minimum, maximum and [nonempty].  Without one, the length
    meets the declared minimum, the declared non-zero maximum and, with
    [nonempty] and no non-zero minimum, is not zero.  The output holds
    the parsed elements in input order, and anything that is not an
    array is rejected. *)
Theorem array_parse_spec def v out :
  parse (array def) v = Ok out <->
  exists l ws,
    v = VArr l /\ out = VArr ws /\
    Forall2 (fun x w =>
               zparse (elementZod (items_items (array_def_of def))) x = Ok w)
            l ws /\
    match array_def_length def with
    | Some n => Z.of_nat (length l) = n
    | None =>
        (forall n, array_def_min def = Some n ->
                   (n <= Z.of_nat (length l))%Z) /\
        (forall n, array_def_max def = Some n -> n <> 0%Z ->
                   (Z.of_nat (length l) <= n)%Z) /\
        (array_def_nonempty def = Some true ->
         (forall n, array_def_min def = Some n -> n = 0%Z) ->
         l <> [])
    end.
Proof.
  rewrite (array_parse seeded pathOfFaker), (array_zod seeded pathOfFaker).
  rewrite zparse_array_Ok. split.
  - intros (l & ws & -> & -> & Hlen & Hel).
    exists l, ws. split; [done|]. split; [done|]. split; [done|].
    apply checkLength_Ok in Hlen as (_ & Hmin & Hmax).
    destruct (array_def_length def) as [len|].
    { specialize (Hmin len eq_refl). specialize (Hmax len eq_refl). lia. }
    repeat split.
    + intros n Hn. rewrite Hn in Hmin.
      destruct (Z.eqb_spec n 0); [lia|]. by apply Hmin.
    + intros n Hn Hn0. rewrite Hn in Hmax.
      destruct (Z.eqb_spec n 0); [done|]. by apply Hmax.
    + intros Hne Hfalsy ->. rewrite Hne in Hmin. simpl in Hmin.
      destruct (array_def_min def) as [m|].
      * rewrite (Hfalsy m eq_refl) in Hmin. simpl in Hmin.
        specialize (Hmin 1%Z eq_refl). lia.
      * specialize (Hmin 1%Z eq_refl). lia.
  - intros (l & ws & -> & -> & Hel & Hbounds).
    exists l, ws. split; [done|]. split; [done|]. split; [|done].
    apply checkLength_Ok.
    destruct (array_def_length def) as [len|].
    { repeat split; intros n [= <-]; lia. }
    destruct Hbounds as (Hmin & Hmax & Hne). repeat split.
    + done.
    + intros n Hn. destruct (array_def_min def) as [m|].
      * destruct (Z.eqb_spec m 0) as [->|Hm].
        -- destruct (array_def_nonempty def) as [[]|] eqn:E; try done.
           injection Hn as <-.
           assert (l <> []) by (apply Hne; [done|by intros ? [= <-]]).
           destruct l; [done|]. simpl. lia.
        -- injection Hn as <-. by apply Hmin.
      * destruct (array_def_nonempty def) as [[]|] eqn:E; try done.
        injection Hn as <-.
        assert (l <> []) by (apply Hne; [done|done]).
        destruct l; [done|]. simpl. lia.
    + intros n Hn. destruct (array_def_max def) as [m|]; [|done].
      destruct (Z.eqb_spec m 0); [done|]. injection Hn as <-.
      by apply Hmax.
Qed.

Lemma items_item_all x xs :
  items_items (foldl items_item (item x) xs) = x :: xs.
Proof.
  assert (H : forall its, items_items (foldl items_item its xs)
                          = items_items its ++ xs).
  { induction xs as [|y ys IH]; intros its; simpl.
    - by rewrite app_nil_r.
    - rewrite IH. simpl. by rewrite <- app_assoc. }
  by rewrite H.
Qed.

(** X7.  An array over the item set [item(x).item(x1)...item(xn)]: its
    descriptor has the type ["array"], whatever the definition passes
    through, and its [of] list holds the descriptors of [x, x1, ..., xn],
    one per item and in the order the items were added. *)
Theorem array_lists_items_in_order def x xs :
  array_def_of def = foldl items_item (item x) xs ->
  descriptorProp "type" (schema (array def) tt) = Some (DString "array") /\
  descriptorProp "of" (schema (array def) tt)
    = Some (DList (map (fun it => schema it tt) (x :: xs))).
Proof.
  intros Hof. simpl. unfold objSpread; simpl. split.
  - rewrite !objGet_objSet_ne by done. apply objGet_objSet_eq.
  - rewrite objGet_objSet_ne by done. rewrite objGet_objSet_eq.
    by rewrite Hof, items_item_all.
Qed.


Lemma stringChecks_isOk s checks :
  isOk (stringChecks s checks) = true <->
  Forall (fun c => isOk (stringCheck s c) = true) checks.
Proof.
  induction checks as [|c checks IH]; simpl.
  - split; [constructor|done].
  - rewrite Forall_cons, <- IH.
    destruct (stringCheck s c), (stringChecks s checks); simpl;
      split; try done; by intros [? ?].
Qed.

Lemma min_checks_ok s (bound : option Z) :
  Forall (fun c => isOk (stringCheck s c) = true)
    (match bound with
     | Some n => if (n =? 0)%Z then [] else [CheckMin n]
     | None => []
     end) <->
  (forall n, bound = Some n -> n <> 0%Z -> (n <= strlen s)%Z).
Proof.
  destruct bound as [n|]; [|split; [done|constructor]].
  destruct (Z.eqb_spec n 0) as [->|Hn].
  - split; [by intros _ ? [= <-]|constructor].
  - rewrite Forall_singleton. simpl.
    destruct (Z.ltb_spec (strlen s) n); simpl; split; try done.
    + intros Hb. specialize (Hb n eq_refl Hn). lia.
    + intros _ ? [= <-] _. lia.
Qed.

Lemma max_checks_ok s (bound : option Z) :
  Forall (fun c => isOk (stringCheck s c) = true)
    (match bound with
     | Some n => if (n =? 0)%Z then [] else [CheckMax n]
     | None => []
     end) <->
  (forall n, bound = Some n -> n <> 0%Z -> (strlen s <= n)%Z).
Proof.
  destruct bound as [n|]; [|split; [done|constructor]].
  destruct (Z.eqb_spec n 0) as [->|Hn].
  - split; [by intros _ ? [= <-]|constructor].
  - rewrite Forall_singleton. simpl.
    destruct (Z.ltb_spec n (strlen s)); simpl; split; try done.
    + intros Hb. specialize (Hb n eq_refl Hn). lia.
    + intros _ ? [= <-] _. lia.
Qed.

Lemma length_checks_ok s (bound : option Z) :
  Forall (fun c => isOk (stringCheck s c) = true)
    (match bound with
     | Some n => if (n =? 0)%Z then [] else [CheckMin n; CheckMax n]
     | None => []
     end) <->
  (forall n, bound = Some n -> n <> 0%Z -> strlen s = n).
Proof.
  destruct bound as [n|]; [|split; [done|constructor]].
  destruct (Z.eqb_spec n 0) as [->|Hn].
  - split; [by intros _ ? [= <-]|constructor].
  - rewrite Forall_cons, Forall_singleton. simpl.
    destruct (Z.ltb_spec (strlen s) n), (Z.ltb_spec n (strlen s)); simpl;
      split; try done; try (by intros [? ?]).
    + intros Hb. specialize (Hb n eq_refl Hn). lia.
    + intros Hb. specialize (Hb n eq_refl Hn). lia.
    + intros Hb. specialize (Hb n eq_refl Hn). lia.
    + intros _ ? [= <-] _. lia.
Qed.

Lemma regex_checks_ok s (re : option RegExp) :
  Forall (fun c => isOk (stringCheck s c) = true)
    (match re with
     | Some re => [CheckRegex re]
     | None => []
     end) <->
  (forall r, re = Some r -> test r s = true).
Proof.
  destruct re as [r|]; [|split; [done|constructor]].
  rewrite Forall_singleton. simpl.
  destruct (test r s) eqn:E; simpl; split; try done.
  - by intros _ ? [= <-].
  - intros H. specialize (H r eq_refl). congruence.
Qed.

(** The checks the [flow] of [text] leaves on the string schema. *)
Lemma text_zod def :
  zod (text def) =
  ZodString
    ((match numProp "min" def with
      | Some n => if (n =? 0)%Z then [] else [CheckMin n]
      | None => []
      end) ++
     (match numProp "max" def with
      | Some n => if (n =? 0)%Z then [] else [CheckMax n]
      | None => []
      end) ++
     (match numProp "length" def with
      | Some n => if (n =? 0)%Z then [] else [CheckMin n; CheckMax n]
      | None => []
      end) ++
     (match regexProp "regex" def with
      | Some re => [CheckRegex re]
      | None => []
      end)).
Proof.
  cbn -[numProp regexProp flow].
  unfold flow, unlessFalsy, unlessUndefined. cbn [fold_left].
  destruct (numProp "min" def) as [mn|], (numProp "max" def) as [mx|],
    (numProp "length" def) as [len|], (regexProp "regex" def) as [re|];
    repeat match goal with
           | |- context [(?z =? 0)%Z] => destruct (Z.eqb_spec z 0)
           end;
    reflexivity.
Qed.

(** X9.  A text node accepts exactly the strings that meet its bounds,
    and returns them unchanged: a non-zero [min] and [max] bound the
    length, a non-zero [length] fixes it, and [regex] must match.  A
    bound of zero is not enforced, and anything that is not a string is
    rejected. *)
Theorem text_parse_spec def v w :
  parse (text def) v = Ok w <->
  exists s,
    v = VStr s /\ w = VStr s /\
    (forall n, numProp "min" def = Some n -> n <> 0%Z -> (n <= strlen s)%Z) /\
    (forall n, numProp "max" def = Some n -> n <> 0%Z -> (strlen s <= n)%Z) /\
    (forall n, numProp "length" def = Some n -> n <> 0%Z -> strlen s = n) /\
    (forall re, regexProp "regex" def = Some re -> test re s = true).
Proof.
  change (parse (text def) v) with (zparse (zod (text def)) v).
  rewrite text_zod.
  match goal with |- context [ZodString ?cs] => set (checks := cs) end.
  assert (Hchecks : forall s,
    isOk (stringChecks s checks) = true <->
    (forall n, numProp "min" def = Some n -> n <> 0%Z ->
               (n <= strlen s)%Z) /\
    (forall n, numProp "max" def = Some n -> n <> 0%Z ->
               (strlen s <= n)%Z) /\
    (forall n, numProp "length" def = Some n -> n <> 0%Z ->
               strlen s = n) /\
    (forall re, regexProp "regex" def = Some re -> test re s = true)).
  { intros s. unfold checks.
    by rewrite stringChecks_isOk, !Forall_app, min_checks_ok,
      max_checks_ok, length_checks_ok, regex_checks_ok. }
  clearbody checks. simpl. split.
  - destruct v; try done. intros (? & Hok & ->)%whenOk_Ok.
    exists s. split; [done|]. split; [done|].
    apply Hchecks. by rewrite Hok.
  - intros (s & -> & -> & Hok%Hchecks).
    by destruct (stringChecks s checks) as [[]|].
Qed.

(** X10.  In every state of the module-level generator the mock of a
    text node returns a string and the generator after the call: the
    result of the mock override or, without one, the generator's next
    paragraphs, after which the generator has advanced.  The node's
    parser returns that string unchanged exactly when it meets the
    node's bounds, which the mock does not consult. *)
Theorem text_mock_round_trip def faker :
  exists s faker',
    text_mock (text def) faker = (VStr s, faker') /\
    (forall f, objGet "mock" def = Some (DMock f) -> (s, faker') = f faker) /\
    ((forall f, objGet "mock" def <> Some (DMock f)) ->
     (s, faker') = lorem_paragraphs faker /\
     position faker' = S (position faker)) /\
    (parse (text def) (VStr s) = Ok (VStr s) <->
     (forall n, numProp "min" def = Some n -> n <> 0%Z ->
                (n <= strlen s)%Z) /\
     (forall n, numProp "max" def = Some n -> n <> 0%Z ->
                (strlen s <= n)%Z) /\
     (forall n, numProp "length" def = Some n -> n <> 0%Z ->
                strlen s = n) /\
     (forall re, regexProp "regex" def = Some re -> test re s = true)).
Proof.
  assert (Hmock : exists s faker',
    text_mock (text def) faker = (VStr s, faker') /\
    (forall f, objGet "mock" def = Some (DMock f) -> (s, faker') = f faker) /\
    ((forall f, objGet "mock" def <> Some (DMock f)) ->
     (s, faker') = lorem_paragraphs faker /\
     position faker' = S (position faker))).
  { cbn -[numProp regexProp flow lorem_paragraphs].
    destruct (objGet "mock" def) as [[| | | | |f]|] eqn:E;
      try (eexists _, _; split; [reflexivity|];
           split; [by intros ? [=]|by intros _]).
    destruct (f faker) as [s faker'] eqn:Ef.
    exists s, faker'. split; [done|]. split.
    - intros f' [= <-]. by rewrite Ef.
    - intros Hnone. by destruct (Hnone f). }
  destruct Hmock as (s & faker' & Hm & Hover & Hdefault).
  exists s, faker'. split; [done|]. split; [done|]. split; [done|].
  rewrite text_parse_spec. split.
  - by intros (s' & [= <-] & _ & H).
  - intros H. exists s. by repeat split; try apply H.
Qed.

(** The parse of a record by the reference schema, field by field. *)
Lemma reference_parse_fields input :
  zparse referenceZod (VObj input) =
  whenOk
    (both (setField input "_ref")
       (under (Key "_ref") (zparse (ZodString []) (prop "_ref" input)))
       (both (setField input "_type")
          (under (Key "_type")
             (zparse (ZodLiteral "reference") (prop "_type" input)))
          (both (setField input "_weak")
             (under (Key "_weak")
                (zparse (ZodOptional ZodBoolean) (prop "_weak" input)))
             (Ok []))))
    VObj.
Proof. reflexivity. Qed.

Lemma optional_boolean_Ok v w :
  zparse (ZodOptional ZodBoolean) v = Ok w <->
  w = v /\ (v = VUndefined \/ exists b, v = VBool b).
Proof.
  destruct v; simpl; split; try done;
    try (by intros [_ [[=]|[? [=]]]]).
  - intros [= <-]. auto.
  - by intros [-> _].
  - intros [= <-]. eauto.
  - by intros [-> _].
Qed.

Lemma prop_defined_has k input v :
  prop k input = v -> v <> VUndefined -> objHas k input = true.
Proof.
  unfold prop, objHas. destruct (objGet k input); [done|].
  by intros <- ?.
Qed.

(** X11.  A reference node accepts exactly the records whose [_ref] is
    a string, whose [_type] is ["reference"] and whose [_weak] is absent,
    undefined or a boolean, whatever documents it points to; the output
    holds [_ref], [_type] and, when the input has it, [_weak], and no
    other key of the input. *)
Theorem reference_parse_spec r v out :
  parse (reference_node r) v = Ok out <->
  exists input s,
    v = VObj input /\
    prop "_ref" input = VStr s /\
    prop "_type" input = VStr "reference" /\
    (prop "_weak" input = VUndefined \/
     exists b, prop "_weak" input = VBool b) /\
    out = VObj ([("_ref", VStr s); ("_type", VStr "reference")] ++
                if objHas "_weak" input
                then [("_weak", prop "_weak" input)] else []).
Proof.
  change (parse (reference_node r) v) with (zparse referenceZod v).
  split.
  - destruct v; try done. rewrite reference_parse_fields.
    intros (props' & Hfields & ->)%whenOk_Ok.
    apply both_Ok in Hfields
      as (wr & rest1 & (s & Hs & ->)%under_Ok%zparse_string_Ok
          & Hrest1 & ->).
    apply both_Ok in Hrest1
      as (wt & rest2 & [Ht ->]%under_Ok%zparse_literal_Ok & Hrest2 & ->).
    apply both_Ok in Hrest2
      as (ww & rest3 & [-> Hw]%under_Ok%optional_boolean_Ok & [= <-] & ->).
    exists props, s. repeat split; try done.
    f_equal. simpl. do 2 f_equal.
    destruct Hw as [Hw|[b Hw]]; rewrite Hw; simpl; [done|].
    by rewrite (prop_defined_has _ _ _ Hw).
  - intros (input & s & -> & Hs & Ht & Hw & ->).
    rewrite reference_parse_fields, Hs, Ht. simpl.
    destruct Hw as [Hw|[b Hw]]; rewrite Hw; simpl; [done|].
    by rewrite (prop_defined_has _ _ _ Hw).
Qed.

(** X12.  Parsing with a reference node is idempotent: what it
    returns, it accepts and returns unchanged. *)
Theorem reference_parse_idempotent r v out :
  parse (reference_node r) v = Ok out ->
  parse (reference_node r) out = Ok out.
Proof.
  intros (input & s & -> & Hs & Ht & Hw & ->)%reference_parse_spec.
  apply reference_parse_spec.
  eexists _, s. split; [reflexivity|].
  destruct (objHas "_weak" input) eqn:Hhas; simpl.
  - repeat split; try done; unfold prop; simpl; exact Hw.
  - repeat split; try done; by left.
Qed.

(** X13.  Every builder passes through to the descriptor the properties
    of the object it spreads into it, except the keys it writes itself:
    for [reference] and [text] that object is the whole definition, for
    [array] and [objectNamed] it is what is left of the definition once
    the builder's own options are taken out of it.  The [type] the
    builder writes wins over a [type] of that object. *)
Theorem descriptor_pass_through k :
  (forall r,
     k <> "type" -> k <> "to" ->
     descriptorProp k (schema (reference_node r) tt)
       = objGet k (reference_def r)) /\
  (forall def,
     k <> "type" -> k <> "of" -> k <> "validation" ->
     descriptorProp k (schema (array def) tt)
       = objGet k (array_def_rest def)) /\
  (forall def,
     k <> "name" -> k <> "type" -> k <> "fields" -> k <> "preview" ->
     descriptorProp k (schema (objectNamed def) tt)
       = objGet k (objectNamed_rest def)) /\
  (forall def,
     k <> "type" -> k <> "validation" ->
     descriptorProp k (schema (text def) tt) = objGet k def) /\
  (forall r, descriptorProp "type" (schema (reference_node r) tt)
             = Some (DString "reference")) /\
  (forall def, descriptorProp "type" (schema (array def) tt)
               = Some (DString "array")) /\
  (forall def, descriptorProp "type" (schema (objectNamed def) tt)
               = Some (DString "object")) /\
  (forall def, descriptorProp "type" (schema (text def) tt)
               = Some (DString "text")).
Proof.
  repeat split; intros; simpl; unfold objSpread; simpl;
    repeat (rewrite objGet_objSet_ne by done);
    try done; apply objGet_objSet_eq.
Qed.
End More.

(** ** Builders branch without interference *)

Section Branching.
Context {A : Type}.
Implicit Types (h : gmap nat (list A)) (l : nat) (x : A).

Lemma spreadAppend_lookup h l x :
  (Store.spreadAppend l x h).2 !! (Store.spreadAppend l x h).1
    = Some (Store.elements l h ++ [x]).
Proof.
  unfold Store.spreadAppend, Store.bind, Store.read, Store.alloc. simpl.
  by rewrite lookup_insert_eq.
Qed.

(** Two arrays spread from one array, one after the other: each holds
    the elements of the original followed by its own, and the original
    is as it was. *)
Lemma spreadAppend_twice h l a b :
  is_Some (h !! l) ->
  let s1 := Store.spreadAppend l a h in
  let s2 := Store.spreadAppend l b s1.2 in
  Store.elements s1.1 s2.2 = Store.elements l h ++ [a] /\
  Store.elements s2.1 s2.2 = Store.elements l h ++ [b] /\
  Store.elements l s2.2 = Store.elements l h.
Proof.
  intros Hl s1 s2.
  destruct (spreadAppend_spec h l a) as (Hnew1 & _ & Hframe1).
  destruct (spreadAppend_spec s1.2 l b) as (Hnew2 & _ & Hframe2).
  fold s1 in Hnew1, Hframe1. fold s2 in Hnew2, Hframe2.
  assert (Hl1 : s1.2 !! l = h !! l) by by apply Hframe1.
  assert (Hel : Store.elements l s1.2 = Store.elements l h).
  { unfold Store.elements. by rewrite Hl1. }
  repeat split.
  - unfold Store.elements at 1. rewrite Hframe2.
    + by rewrite <- Hnew1.
    + unfold s1. rewrite spreadAppend_lookup. eauto.
  - by rewrite Hnew2, Hel.
  - unfold Store.elements at 1. rewrite Hframe2; [|by rewrite Hl1].
    exact Hel.
Qed.

(** An array spread from an array spread from one array holds the
    elements of the original followed by both additions, in order. *)
Lemma spreadAppend_chain h l a b :
  let s1 := Store.spreadAppend l a h in
  let s2 := Store.spreadAppend s1.1 b s1.2 in
  Store.elements s2.1 s2.2 = (Store.elements l h ++ [a]) ++ [b].
Proof.
  intros s1 s2.
  destruct (spreadAppend_spec s1.2 s1.1 b) as (Hnew2 & _).
  fold s2 in Hnew2. rewrite Hnew2. f_equal.
  unfold Store.elements at 1. unfold s1. by rewrite spreadAppend_lookup.
Qed.
End Branching.

(** X14.  Followed on the heap, two [to] calls on the same reference
    node give two nodes that do not interfere: after both calls the first
    still lists the receiver's targets followed by its own document, the
    second the receiver's targets followed by its own, and the receiver
    its targets alone; and [to] on the result of [to] lists both
    documents after the receiver's, in call order.  The same holds for
    [item] on item sets. *)
Theorem builders_branch_independently :
  (forall (h : gmap nat (list DocumentType)) r a b,
     is_Some (h !! Store.documents r) ->
     let s1 := Store.to r a h in
     let s2 := Store.to r b s1.2 in
     let s3 := Store.to s1.1 b s1.2 in
     Store.reference_in s2.2 s1.1 = to (Store.reference_in h r) a /\
     Store.reference_in s2.2 s2.1 = to (Store.reference_in h r) b /\
     Store.reference_in s2.2 r = Store.reference_in h r /\
     Store.reference_in s3.2 s3.1 = to (to (Store.reference_in h r) a) b) /\
  (forall (h : gmap nat (list SanityType)) its x y,
     is_Some (h !! Store.items its) ->
     let s1 := Store.items_item its x h in
     let s2 := Store.items_item its y s1.2 in
     let s3 := Store.items_item s1.1 y s1.2 in
     Store.items_in s2.2 s1.1 = items_item (Store.items_in h its) x /\
     Store.items_in s2.2 s2.1 = items_item (Store.items_in h its) y /\
     Store.items_in s2.2 its = Store.items_in h its /\
     Store.items_in s3.2 s3.1
       = items_item (items_item (Store.items_in h its) x) y).
Proof.
  split.
  - intros h r a b Hl. cbv zeta. rewrite !to_run. cbn [fst snd].
    destruct (spreadAppend_twice h (Store.documents r) a b Hl)
      as (H1 & H2 & H3).
    pose proof (spreadAppend_chain h (Store.documents r) a b) as H4.
    cbv zeta in H1, H2, H3, H4.
    unfold Store.reference_in, Store.referenceInternal.
    cbn [Store.documents Store.def].
    by rewrite H1, H2, H3, H4.
  - intros h its x y Hl. cbv zeta. rewrite !items_item_run. cbn [fst snd].
    destruct (spreadAppend_twice h (Store.items its) x y Hl)
      as (H1 & H2 & H3).
    pose proof (spreadAppend_chain h (Store.items its) x y) as H4.
    cbv zeta in H1, H2, H3, H4.
    unfold Store.items_in, Store.itemsInternal. cbn [Store.items].
    by rewrite H1, H2, H3, H4.
Qed.

(** ** The further properties on the sample schemas *)

Lemma objectNamed_parse_over_fields_witness :
  objGet "_type" (fields_shape (objectNamed_fields Greeting.namedHello))
    = None /\
  (parse (objectNamed Sample.seeded Sample.noPreview Greeting.namedHello)
     Greeting.helloValue
     = Ok (VObj [("hello", VStr "world"); ("_type", VStr "foo")])
   <->
   prop "_type" [("_type", VStr "foo"); ("hello", VStr "world");
                 ("extra", VNull)] = VStr "foo" /\
   exists out,
     zparse (ZodObject (fields_shape (objectNamed_fields
                                        Greeting.namedHello)))
       Greeting.helloValue = Ok (VObj out) /\
     VObj [("hello", VStr "world"); ("_type", VStr "foo")]
       = VObj (out ++ [("_type", VStr "foo")])).
Proof.
  split; [reflexivity|].
  exact (objectNamed_parse_over_fields Sample.seeded Sample.noPreview
           Greeting.namedHello _ _ eq_refl).
Defined.

Lemma objectNamed_strips_unknown_keys_witness :
  parse (objectNamed Sample.seeded Sample.noPreview Greeting.namedHello)
    Greeting.helloValue
    = Ok (VObj [("hello", VStr "world"); ("_type", VStr "foo")]) /\
  ("hello" = "_type" \/
   objHas "hello" (fields_shape (objectNamed_fields Greeting.namedHello))
     = true).
Proof.
  split; [reflexivity|].
  exact (objectNamed_strips_unknown_keys Sample.seeded Sample.noPreview
           Greeting.namedHello Greeting.helloValue
           [("hello", VStr "world"); ("_type", VStr "foo")] "hello"
           eq_refl eq_refl).
Defined.

Lemma objectNamed_mock_parses_witness :
  NoDup (map fst (fields_shape (objectNamed_fields Greeting.namedHello))) /\
  isOk (parse (objectNamed Sample.seeded Sample.noPreview
                 Greeting.namedHello)
          (mock (objectNamed Sample.seeded Sample.noPreview
                   Greeting.namedHello) "")) = true.
Proof.
  assert (Hnodup : NoDup (map fst (fields_shape
                                     (objectNamed_fields
                                        Greeting.namedHello)))).
  { simpl. apply NoDup_singleton. }
  split; [exact Hnodup|].
  exact (objectNamed_mock_parses Sample.seeded Sample.noPreview
           Greeting.namedHello "" eq_refl Hnodup eq_refl).
Defined.

Lemma keyed_record_item_witness :
  objGet "_key"
    [ ("_ref", ZodString []); ("_type", ZodLiteral "reference");
      ("_weak", ZodOptional ZodBoolean) ] = None /\
  (zparse (elementZod [Sample.pointer]) Sample.keyedPointerValue
     = Ok Sample.keyedPointerValue
   <->
   exists key out,
     prop "_key" [ ("_ref", VStr "somereference");
                   ("_type", VStr "reference"); ("_key", VStr "a1") ]
       = VStr key /\
     zparse (zod Sample.pointer) Sample.keyedPointerValue = Ok (VObj out) /\
     Sample.keyedPointerValue = VObj (out ++ [("_key", VStr key)])).
Proof.
  split; [reflexivity|].
  exact (keyed_record_item Sample.pointer _ _ _ eq_refl eq_refl).
Defined.

Lemma array_lists_items_in_order_witness :
  array_def_of Sample.pointersOrTexts
    = foldl items_item (item Sample.pointer) [text_node (text [])]
  /\
  descriptorProp "of"
    (schema (array Sample.seeded Sample.pathOfFaker Sample.pointersOrTexts)
       tt)
    = Some (DList [ schema Sample.pointer tt;
                    schema (text []) tt ]).
Proof.
  split; [reflexivity|].
  exact (proj2 (array_lists_items_in_order Sample.seeded Sample.pathOfFaker
                  Sample.pointersOrTexts Sample.pointer
                  [text_node (text [])] eq_refl)).
Defined.


Lemma reference_parse_idempotent_witness :
  parse Sample.pointer Sample.pointerValue
    = Ok (VObj [ ("_ref", VStr "somereference");
                 ("_type", VStr "reference") ]) /\
  parse Sample.pointer
    (VObj [("_ref", VStr "somereference"); ("_type", VStr "reference")])
    = Ok (VObj [ ("_ref", VStr "somereference");
                 ("_type", VStr "reference") ]).
Proof.
  split; [reflexivity|].
  exact (reference_parse_idempotent (reference []) Sample.pointerValue _
           eq_refl).
Defined.

Lemma descriptor_pass_through_witness :
  descriptorProp "hidden" (schema (reference_node Greeting.hiddenPointer) tt)
    = Some (DVal (VBool false)).
Proof.
  refine (proj1 (descriptor_pass_through Sample.seeded
                   Sample.pathOfFaker Sample.noPreview "hidden")
            Greeting.hiddenPointer _ _); discriminate.
Defined.

Lemma builders_branch_independently_witness :
  is_Some (({[ 0 := [Sample.foo] ]} : gmap nat (list DocumentType)) !! 0) /\
  Store.reference_in
    (Store.to (Store.referenceInternal [] 0) Sample.foo
       (Store.to (Store.referenceInternal [] 0) Sample.foo
          {[ 0 := [Sample.foo] ]}).2).2
    (Store.referenceInternal [] 0)
  = Store.reference_in {[ 0 := [Sample.foo] ]} (Store.referenceInternal [] 0).
Proof.
  assert (Hl : is_Some (({[ 0 := [Sample.foo] ]}
                          : gmap nat (list DocumentType)) !! 0))
    by (rewrite lookup_singleton_eq; eauto).
  split; [exact Hl|].
  destruct (proj1 builders_branch_independently
              {[ 0 := [Sample.foo] ]} (Store.referenceInternal [] 0)
              Sample.foo Sample.foo Hl) as (_ & _ & Hsame & _).
  exact Hsame.
Defined.

Lemma array_mock_parses_unbounded_witness :
  array_def_mock Sample.pointers = None /\
  parse (array Sample.seeded Sample.pathOfFaker Sample.pointers)
    (mock (array Sample.seeded Sample.pathOfFaker Sample.pointers) "")
    = Ok (VArr []).
Proof.
  split; [reflexivity|].
  apply (array_mock_parses_unbounded Sample.seeded Sample.pathOfFaker
           Sample.pointers ""); simpl; congruence.
Defined.

(** Two mocks of one text node in a row draw different paragraphs from
    the sample generator. *)
Lemma text_mocks_in_a_row :
  (text_mock (text []) Sample.generator).1
    = VStr "Lorem ipsum dolor sit amet." /\
  (text_mock (text []) (text_mock (text []) Sample.generator).2).1
    = VStr "Consectetur adipiscing elit.".
Proof. by split. Qed.
